(** * Meeting-summarization: the upload form, the home page, the status panel,
      the REST client, and the task pipeline they talk to.

    The React/TypeScript front end is embedded function by function.  The
    Python back end (task registry, orchestrator, file relocation) is not part
    of the sources at hand; its behaviour is modelled from the design
    document, and every such definition says so. *)

From Stdlib Require Import Ascii QArith_base.
From stdpp Require Import base option list strings pretty gmap.

Local Open Scope Z_scope.

(** ** JavaScript string and array helpers used by the front end

    File names are taken as byte strings.  The separator ['.'] and the letters
    of the supported formats are ASCII; every other byte is carried along
    unchanged. *)
Module Js.

(** [String.prototype.split] with a one-character separator: the result is
    never empty, and the separator itself is dropped. *)
Fixpoint split (sep : ascii) (s : string) : list string :=
  match s with
  | EmptyString => [EmptyString]
  | String c rest =>
      if Ascii.eqb c sep then EmptyString :: split sep rest
      else match split sep rest with
           | seg :: segs => String c seg :: segs
           | [] => [String c EmptyString]
           end
  end.

(** [Array.prototype.pop]: the last element, [undefined] on an empty array. *)
Definition pop {A} (xs : list A) : option A := last xs.

Definition lower_char (c : ascii) : ascii :=
  let n := nat_of_ascii c in
  if (Nat.leb 65 n && Nat.leb n 90)%bool then ascii_of_nat (n + 32) else c.

(** [String.prototype.toLowerCase], on the ASCII letters. *)
Fixpoint toLowerCase (s : string) : string :=
  match s with
  | EmptyString => EmptyString
  | String c rest => String (lower_char c) (toLowerCase rest)
  end.

(** [Array.prototype.includes] on strings. *)
Definition includes (xs : list string) (x : string) : bool :=
  existsb (String.eqb x) xs.

(** Truthiness of a possibly-undefined string: [undefined] and [''] are
    falsy. *)
Definition truthy (o : option string) : bool :=
  match o with
  | Some s => negb (String.eqb s "")
  | None => false
  end.

(** [a || b] where [b] is a string. *)
Definition or_else (a : option string) (b : string) : string :=
  match a with
  | Some s => if String.eqb s "" then b else s
  | None => b
  end.

(** [Array.prototype.indexOf]: [-1] when absent. *)
Fixpoint indexOf (xs : list string) (x : string) : Z :=
  match xs with
  | [] => -1
  | y :: ys =>
      if String.eqb y x then 0
      else let i := indexOf ys x in if i <? 0 then -1 else i + 1
  end.

Fixpoint contains_char (c : ascii) (s : string) : bool :=
  match s with
  | EmptyString => false
  | String d rest => (Ascii.eqb d c || contains_char c rest)%bool
  end.

End Js.

(** ** The upload form ([AudioUploader]) *)
Module Uploader.

Record File := { name : string; size : Z; type : string }.

Record UploadFile := {
  uid : string;
  uf_name : string;
  uf_status : string;
  uf_size : Z;
  uf_type : string;
  originFileObj : File
}.

Record State := { selectedFile : option File; fileList : list UploadFile }.

Definition initial : State := {| selectedFile := None; fileList := [] |}.

Definition supportedFormats : list string :=
  ["mp3"; "wav"; "m4a"; "mp4"; "webm"; "flac"].

Definition maxSize : Z := 25 * 1024 * 1024.

(** [file.name.split('.').pop()?.toLowerCase()] *)
Definition fileExtension (file : File) : option string :=
  Js.toLowerCase <$> Js.pop (Js.split "." (name file)).

Definition size_message : string := "File quá lớn! Kích thước tối đa: 25MB".
Definition format_message : string :=
  "Định dạng file không được hỗ trợ! Hỗ trợ: mp3, wav, m4a, mp4, webm, flac".

(** What one call of [beforeUpload] does: the value it returns to the upload
    widget, the component state after it, and the toasts it raised. *)
Record Outcome := { returned : bool; after : State; errors : list string }.

Definition formatOk (file : File) : bool :=
  match fileExtension file with
  | Some ext => (negb (String.eqb ext "") && Js.includes supportedFormats ext)%bool
  | None => false
  end.

Definition beforeUpload (now : N) (file : File) (st : State) : Outcome :=
  if size file >? maxSize then
    {| returned := false; after := st; errors := [size_message] |}
  else if negb (formatOk file) then
    {| returned := false; after := st; errors := [format_message] |}
  else
    let uploadFile :=
      {| uid := name file +:+ "-" +:+ pretty now;
         uf_name := name file;
         uf_status := "done";
         uf_size := size file;
         uf_type := type file;
         originFileObj := file |} in
    {| returned := false;
       after := {| selectedFile := Some file; fileList := [uploadFile] |};
       errors := [] |}.

Definition handleRemove (st : State) : State := initial.

(** [handleProcess]: the file handed to [onFileSelect], if any. *)
Definition handleProcess (st : State) : option File := selectedFile st.

End Uploader.

(** ** The REST client ([services/api.ts]) and its response types *)
Module Api.

Inductive Method := GET | POST.

(** A call made through the axios instance: verb, path under the base URL,
    and the file carried as multipart form data, if any. *)
Record Request := { method : Method; url : string; body : option Uploader.File }.

Definition processAudioComplete (file : Uploader.File) : Request :=
  {| method := POST; url := "/api/v1/process-audio"; body := Some file |}.

Definition uploadAudio (file : Uploader.File) : Request :=
  {| method := POST; url := "/api/v1/upload-audio"; body := Some file |}.

Definition getTaskStatus (taskId : string) : Request :=
  {| method := GET; url := "/api/v1/tasks/" +:+ taskId +:+ "/status"; body := None |}.

Definition getTranscription (taskId : string) : Request :=
  {| method := GET; url := "/api/v1/tasks/" +:+ taskId +:+ "/transcription"; body := None |}.

Definition getMeetingSummary (taskId : string) : Request :=
  {| method := GET; url := "/api/v1/tasks/" +:+ taskId +:+ "/summary"; body := None |}.

Definition transcribeAudio (file : Uploader.File) : Request :=
  {| method := POST; url := "/api/transcription/transcribe"; body := Some file |}.

Definition createSummaryFromTranscription (taskId : string) : Request :=
  {| method := POST; url := "/api/transcription/summarize/" +:+ taskId; body := None |}.

Record AudioUploadResponse := {
  aur_task_id : string; aur_message : string; aur_status : string
}.

Record TranscriptionResponse := {
  tr_task_id : string;
  tr_transcription : string;
  tr_transcription_language : option string;
  tr_audio_duration : option Q;
  tr_confidence : option Q;
  tr_processed_at : string;
  tr_audio_file_path : option string
}.

Record MeetingSummaryResponse := {
  ms_task_id : string;
  ms_summary : string;
  ms_key_points : list string;
  ms_action_items : list string;
  ms_participants : list string;
  ms_meeting_duration : option string;
  ms_processed_at : string;
  ms_audio_file_path : option string;
  ms_transcription : option string;
  ms_transcription_language : option string
}.

(** The string literals of the union type [ProcessingStatus]. *)
Definition ProcessingStatus : list string :=
  ["pending"; "uploading"; "transcribing"; "summarizing"; "completed"; "failed"].

Record ProcessingStatusResponse := {
  task_id : string;
  status : string;
  progress : Z;
  message : string;
  result : option string;
  created_at : string;
  updated_at : string
}.

#[local] Set Warnings "-register-all".

(** A JSON value, as a response body carries it. *)
Inductive Json :=
| JNull
| JBool (b : bool)
| JNumber (q : Q)
| JString (s : string)
| JArray (items : list Json)
| JObject (fields : list (string * Json)).

(** What the page reads off a rejected call.  [error] is typed [any]:
    [error.response?.data?.detail] is whatever JSON the server put there
    ([undefined] when there is no response, no body or no such field), and
    [error.message] is the message of the thrown error. *)
Record AxiosError := { detail : option Json; error_message : option string }.

(** JavaScript truthiness of a JSON value: [null], [false], [0] and ['']
    are falsy; every array and every object is truthy. *)
Definition truthy (v : Json) : bool :=
  match v with
  | JNull => false
  | JBool b => b
  | JNumber q => negb (Qeq_bool q 0)
  | JString s => negb (String.eqb s "")
  | JArray _ => true
  | JObject _ => true
  end.

End Api.

(** ** The status panel ([components/Results/ProcessingStatus.tsx]) *)
Module StatusView.

Definition getStatusColor (currentStatus : string) : string :=
  if String.eqb currentStatus "pending" then "#faad14"
  else if String.eqb currentStatus "uploading" then "#1890ff"
  else if String.eqb currentStatus "transcribing" then "#722ed1"
  else if String.eqb currentStatus "summarizing" then "#13c2c2"
  else if String.eqb currentStatus "completed" then "#52c41a"
  else if String.eqb currentStatus "failed" then "#ff4d4f"
  else "#d9d9d9".

Definition getStatusText (currentStatus : string) : string :=
  if String.eqb currentStatus "pending" then "Đang chờ xử lý"
  else if String.eqb currentStatus "uploading" then "Đang tải lên"
  else if String.eqb currentStatus "transcribing" then "Đang chuyển đổi giọng nói"
  else if String.eqb currentStatus "summarizing" then "Đang tạo biên bản"
  else if String.eqb currentStatus "completed" then "Hoàn thành"
  else if String.eqb currentStatus "failed" then "Xử lý thất bại"
  else "Không xác định".

Inductive Icon :=
| SoundOutlined | FileTextOutlined | CheckCircleOutlined
| ExclamationCircleOutlined | LoadingOutlined.

Definition statuses : list string :=
  ["uploading"; "transcribing"; "summarizing"; "completed"].

Definition statusLabels : list string :=
  ["Tải lên file audio"; "Chuyển đổi giọng nói thành văn bản";
   "Tạo biên bản cuộc họp"; "Hoàn thành xử lý"].

Definition statusIcons : list Icon :=
  [SoundOutlined; FileTextOutlined; FileTextOutlined; CheckCircleOutlined].

Record TimelineItem := {
  color : string;
  dot : Icon;
  label : string;
  progressBar : option Z
}.

Definition timelineItem (status : Api.ProcessingStatusResponse)
    (index : nat) (stepStatus : string) : TimelineItem :=
  let icon0 := default FileTextOutlined (statusIcons !! index) in
  let currentIndex := Js.indexOf statuses (Api.status status) in
  let '(color, icon) :=
    if String.eqb (Api.status status) "failed" then
      (if Nat.eqb index 0 then "#ff4d4f" else "#d9d9d9",
       if Nat.eqb index 0 then ExclamationCircleOutlined else icon0)
    else if 0 <=? currentIndex then
      if Z.of_nat index <? currentIndex then ("#52c41a", icon0)
      else if Z.of_nat index =? currentIndex then
        (getStatusColor (Api.status status),
         if negb (String.eqb stepStatus "completed") then LoadingOutlined else icon0)
      else ("#d9d9d9", icon0)
    else ("#d9d9d9", icon0) in
  {| color := color;
     dot := icon;
     label := default "" (statusLabels !! index);
     progressBar :=
       if ((Z.of_nat index =? currentIndex)
           && negb (String.eqb (Api.status status) "completed"))%bool
       then Some (Api.progress status) else None |}.

Definition getTimelineItems (status : Api.ProcessingStatusResponse) : list TimelineItem :=
  imap (timelineItem status) statuses.

(** The red box under the timeline:
    [status.status === 'failed' && status.message && (...)]. *)
Definition failedBox (status : Api.ProcessingStatusResponse) : option string :=
  if (String.eqb (Api.status status) "failed"
      && Js.truthy (Some (Api.message status)))%bool
  then Some ("Lỗi: " +:+ Api.message status) else None.

End StatusView.

(** ** The home page ([pages/HomePage.tsx])

    The component is a reactive machine: user gestures and settled promises
    are its events, each handled by a state update and a list of REST calls.
    A settled promise carries what the awaiting closure had captured. *)
Module Home.

Import Api.

Record State := {
  currentTaskId : option string;
  processingStatus : option ProcessingStatusResponse;
  transcriptionResult : option TranscriptionResponse;
  meetingSummary : option MeetingSummaryResponse;
  isProcessing : bool;
  isCreatingSummary : bool;
  (* [useState<string | null>]; a handler may store the [any]-typed detail
     of a rejected call here *)
  error : option Json;
  isLoadingStatus : bool
}.

Definition initial : State :=
  {| currentTaskId := None; processingStatus := None;
     transcriptionResult := None; meetingSummary := None;
     isProcessing := false; isCreatingSummary := false;
     error := None; isLoadingStatus := false |}.

Definition setCurrentTaskId v st :=
  {| currentTaskId := v; processingStatus := processingStatus st;
     transcriptionResult := transcriptionResult st; meetingSummary := meetingSummary st;
     isProcessing := isProcessing st; isCreatingSummary := isCreatingSummary st;
     error := error st; isLoadingStatus := isLoadingStatus st |}.
Definition setProcessingStatus v st :=
  {| currentTaskId := currentTaskId st; processingStatus := v;
     transcriptionResult := transcriptionResult st; meetingSummary := meetingSummary st;
     isProcessing := isProcessing st; isCreatingSummary := isCreatingSummary st;
     error := error st; isLoadingStatus := isLoadingStatus st |}.
Definition setTranscriptionResult v st :=
  {| currentTaskId := currentTaskId st; processingStatus := processingStatus st;
     transcriptionResult := v; meetingSummary := meetingSummary st;
     isProcessing := isProcessing st; isCreatingSummary := isCreatingSummary st;
     error := error st; isLoadingStatus := isLoadingStatus st |}.
Definition setMeetingSummary v st :=
  {| currentTaskId := currentTaskId st; processingStatus := processingStatus st;
     transcriptionResult := transcriptionResult st; meetingSummary := v;
     isProcessing := isProcessing st; isCreatingSummary := isCreatingSummary st;
     error := error st; isLoadingStatus := isLoadingStatus st |}.
Definition setIsProcessing v st :=
  {| currentTaskId := currentTaskId st; processingStatus := processingStatus st;
     transcriptionResult := transcriptionResult st; meetingSummary := meetingSummary st;
     isProcessing := v; isCreatingSummary := isCreatingSummary st;
     error := error st; isLoadingStatus := isLoadingStatus st |}.
Definition setIsCreatingSummary v st :=
  {| currentTaskId := currentTaskId st; processingStatus := processingStatus st;
     transcriptionResult := transcriptionResult st; meetingSummary := meetingSummary st;
     isProcessing := isProcessing st; isCreatingSummary := v;
     error := error st; isLoadingStatus := isLoadingStatus st |}.
Definition setError v st :=
  {| currentTaskId := currentTaskId st; processingStatus := processingStatus st;
     transcriptionResult := transcriptionResult st; meetingSummary := meetingSummary st;
     isProcessing := isProcessing st; isCreatingSummary := isCreatingSummary st;
     error := v; isLoadingStatus := isLoadingStatus st |}.
Definition setIsLoadingStatus v st :=
  {| currentTaskId := currentTaskId st; processingStatus := processingStatus st;
     transcriptionResult := transcriptionResult st; meetingSummary := meetingSummary st;
     isProcessing := isProcessing st; isCreatingSummary := isCreatingSummary st;
     error := error st; isLoadingStatus := v |}.

Definition failedFallback : string := "Xử lý thất bại".
Definition processFallback : string := "Có lỗi xảy ra khi xử lý file".
Definition summaryFallback : string := "Có lỗi xảy ra khi tạo biên bản".

(** [error.response?.data?.detail || error.message || fallback] *)
Definition errorMessage (e : AxiosError) (fallback : string) : Json :=
  match detail e with
  | Some d =>
      if truthy d then d else JString (Js.or_else (error_message e) fallback)
  | None => JString (Js.or_else (error_message e) fallback)
  end.

Inductive Event :=
| FileSelected (file : Uploader.File)
| TranscribeSettled (r : TranscriptionResponse + AxiosError)
| CreateSummaryClicked
| SummarizeSettled (r : MeetingSummaryResponse + AxiosError)
| ResetClicked
| ErrorClosed
| PollTick
| StatusSettled (taskId : string) (r : ProcessingStatusResponse + AxiosError)
| SummaryFetched (r : MeetingSummaryResponse + AxiosError).

(** [handleFileSelect] up to its [await]. *)
Definition handleFileSelect (file : Uploader.File) (st : State) : State * list Request :=
  (setIsProcessing true
     (setProcessingStatus None
        (setMeetingSummary None (setTranscriptionResult None (setError None st)))),
   [transcribeAudio file]).

(** [handleFileSelect] after its [await]. *)
Definition handleFileSelect_settled (r : TranscriptionResponse + AxiosError)
    (st : State) : State :=
  match r with
  | inl transcription =>
      setIsProcessing false
        (setCurrentTaskId (Some (tr_task_id transcription))
           (setTranscriptionResult (Some transcription) st))
  | inr e =>
      setIsProcessing false (setError (Some (errorMessage e processFallback)) st)
  end.

(** [handleCreateSummary] up to its [await]. *)
Definition handleCreateSummary (st : State) : State * list Request :=
  match currentTaskId st with
  | None => (st, [])
  | Some taskId =>
      if String.eqb taskId "" then (st, [])
      else (setIsCreatingSummary true (setError None st),
            [createSummaryFromTranscription taskId])
  end.

(** [handleCreateSummary] after its [await], [finally] included. *)
Definition handleCreateSummary_settled (r : MeetingSummaryResponse + AxiosError)
    (st : State) : State :=
  setIsCreatingSummary false
    match r with
    | inl summary => setMeetingSummary (Some summary) st
    | inr e => setError (Some (errorMessage e summaryFallback)) st
    end.

Definition handleReset (st : State) : State := initial.

(** The polling effect runs its interval only while
    [currentTaskId && isProcessing]. *)
Definition polling (st : State) : option string :=
  match currentTaskId st with
  | Some taskId =>
      if (negb (String.eqb taskId "") && isProcessing st)%bool then Some taskId else None
  | None => None
  end.

(** One firing of the interval, up to the first [await]. *)
Definition pollTick (st : State) : State * list Request :=
  match polling st with
  | Some taskId => (setIsLoadingStatus true st, [getTaskStatus taskId])
  | None => (st, [])
  end.

(** The interval callback after [getTaskStatus] settles. *)
Definition onStatus (taskId : string) (r : ProcessingStatusResponse + AxiosError)
    (st : State) : State * list Request :=
  match r with
  | inl status =>
      let st1 := setProcessingStatus (Some status) st in
      if String.eqb (Api.status status) "completed" then
        (st1, [getMeetingSummary taskId])
      else if String.eqb (Api.status status) "failed" then
        (setIsLoadingStatus false
           (setIsProcessing false
              (setError
                 (Some (JString (Js.or_else (Some (Api.message status)) failedFallback)))
                 st1)),
         [])
      else (setIsLoadingStatus false st1, [])
  | inr _ => (setIsLoadingStatus false st, [])
  end.

(** The interval callback after [getMeetingSummary] settles. *)
Definition onSummary (r : MeetingSummaryResponse + AxiosError) (st : State) : State :=
  setIsLoadingStatus false
    match r with
    | inl summary => setIsProcessing false (setMeetingSummary (Some summary) st)
    | inr _ => st
    end.

Definition step (st : State) (ev : Event) : State * list Request :=
  match ev with
  | FileSelected file => handleFileSelect file st
  | TranscribeSettled r => (handleFileSelect_settled r st, [])
  | CreateSummaryClicked => handleCreateSummary st
  | SummarizeSettled r => (handleCreateSummary_settled r st, [])
  | ResetClicked => (handleReset st, [])
  | ErrorClosed => (setError None st, [])
  | PollTick => pollTick st
  | StatusSettled taskId r => onStatus taskId r st
  | SummaryFetched r => (onSummary r st, [])
  end.

(** The REST calls issued along a run of the page, event by event. *)
Fixpoint calls (st : State) (evs : list Event) : list Request :=
  match evs with
  | [] => []
  | ev :: rest => let '(st', rs) := step st ev in rs ++ calls st' rest
  end.


(** The error banner: [{error && <Alert description={error} ... />}], by the
    value handed to the alert as its description. *)
Definition errorBanner (st : State) : option Json :=
  match error st with
  | Some v => if truthy v then Some v else None
  | None => None
  end.

End Home.

(** ** Submitting a file through the page

    The form is mounted empty; the user drops a file on it ([beforeUpload])
    and presses the process button ([handleProcess]), which hands the selected
    file to the page's [handleFileSelect]. *)
Module Page.

Definition submit (now : N) (file : Uploader.File) : list Api.Request :=
  match Uploader.handleProcess
          (Uploader.after (Uploader.beforeUpload now file Uploader.initial)) with
  | Some f => snd (Home.handleFileSelect f Home.initial)
  | None => []
  end.

(** The extension of a file name as the design document uses the word: the
    text after the last dot of a name that has a dot. *)
Fixpoint extension_of (name : string) : option string :=
  match name with
  | EmptyString => None
  | String c rest =>
      match extension_of rest with
      | Some ext => Some ext
      | None => if Ascii.eqb c "." then Some rest else None
      end
  end.

(** The upload rule as the design document words it: a file is refused when
    it is over 25 MB or its extension is not one of the listed formats. *)
Definition refused_as_documented (f : Uploader.File) : Prop :=
  Uploader.size f > Uploader.maxSize
  ∨ ¬ ∃ ext, extension_of (Uploader.name f) = Some ext
             ∧ In ext Uploader.supportedFormats.

(** The status values the design document lists for a task. *)
Definition documented_statuses : list string :=
  ["pending"; "uploading"; "transcribing"; "transcribed"; "summarizing";
   "completed"; "failed"].

End Page.

(** ** The JSON extraction quoted in the workflow notes

    The one line of the back end's summary parsing that the sources show:
    [re.search(r'```json\s*(\{.*?\})\s*```', content, re.DOTALL)].  Group 1
    of the leftmost match is returned, [None] when nothing matches.

    [content] is a Python [str], a sequence of code points; the pattern is a
    [str] pattern, so [\s] is the Unicode white space and, under [DOTALL],
    [.] is any code point. *)
Module Notes.

(** The code points of an ASCII literal. *)
Fixpoint codes (s : string) : list N :=
  match s with
  | EmptyString => []
  | String c rest => N_of_ascii c :: codes rest
  end.

(** The class [\s] of a [str] pattern: the code points [str.isspace] holds
    of. *)
Definition is_space (c : N) : bool :=
  ((9 <=? c) && (c <=? 13)            (* tab, line feed, ..., carriage return *)
   || (28 <=? c) && (c <=? 32)        (* the separators and the space *)
   || (c =? 133)                      (* U+0085 next line *)
   || (c =? 160)                      (* U+00A0 no-break space *)
   || (c =? 5760)                     (* U+1680 *)
   || (8192 <=? c) && (c <=? 8202)    (* U+2000 .. U+200A *)
   || (c =? 8232) || (c =? 8233)      (* U+2028, U+2029 *)
   || (c =? 8239)                     (* U+202F *)
   || (c =? 8287)                     (* U+205F *)
   || (c =? 12288))%N%bool.           (* U+3000 *)

Definition all_space (s : list N) : bool := forallb is_space s.

Definition fence : list N := codes "```".
Definition json_fence : list N := codes "```json".
Definition opening_brace : N := 123.
Definition closing_brace : N := 125.

(** [\s*] before something that is no space: all the spaces go. *)
Fixpoint skip_spaces (s : list N) : list N :=
  match s with
  | [] => []
  | c :: rest => if is_space c then skip_spaces rest else s
  end.

(** A literal at the front of the text; the rest of the text when it is
    there. *)
Fixpoint strip_prefix (lit s : list N) : option (list N) :=
  match lit, s with
  | [], _ => Some s
  | a :: lit', b :: s' => if (a =? b)%N then strip_prefix lit' s' else None
  | _ :: _, [] => None
  end.

(** [.*?\}\s*```] after the opening brace: the lazy star stops at the first
    closing brace that spaces and a fence follow.  [taken] is the group so
    far. *)
Fixpoint close_group (taken s : list N) : option (list N) :=
  match s with
  | [] => None
  | c :: rest =>
      if (c =? closing_brace)%N then
        match strip_prefix fence (skip_spaces rest) with
        | Some _ => Some (taken ++ [closing_brace])
        | None => close_group (taken ++ [c]) rest
        end
      else close_group (taken ++ [c]) rest
  end.

(** The pattern anchored at the front of the text. *)
Definition match_here (s : list N) : option (list N) :=
  match strip_prefix json_fence s with
  | Some s1 =>
      match skip_spaces s1 with
      | c :: s2 =>
          if (c =? opening_brace)%N then close_group [opening_brace] s2 else None
      | [] => None
      end
  | None => None
  end.

(** [re.search]: the leftmost position the pattern matches at. *)
Fixpoint json_match (content : list N) : option (list N) :=
  match match_here content with
  | Some group => Some group
  | None =>
      match content with
      | [] => None
      | _ :: rest => json_match rest
      end
  end.

(** A fenced block inside a text: the fence [```json], spaces, a stretch from
    an opening to a closing brace, spaces, and the closing fence. *)
Definition fenced (pre spaces body spaces' post : list N) : list N :=
  pre ++ json_fence ++ spaces ++ [opening_brace] ++ body ++ [closing_brace]
  ++ spaces' ++ fence ++ post.

(** The text holds a fenced block that starts [offset] code points in and
    whose braces enclose [body]. *)
Definition fenced_at (content : list N) (offset : nat) (body : list N) : Prop :=
  ∃ pre spaces spaces' post,
    content = fenced pre spaces body spaces' post
    ∧ length pre = offset
    ∧ all_space spaces = true ∧ all_space spaces' = true.

End Notes.

(** * The task pipeline behind the REST interface

    The back end is not among the sources.  Its task record, state machine,
    registry and summarize endpoint are written down here from the design
    document (sections 3, 4.1, 4.2, 6 and 7). *)
Module Pipeline.

(** Modelled from the spec: the status values of a Task Record (section 3);
    the back end that defines them is absent. *)
Inductive Status :=
| pending | uploading | transcribing | transcribed
| summarizing | completed | failed.

Global Instance Status_eq_dec : EqDecision Status.
Proof. solve_decision. Defined.

(** Modelled from the spec: the spelling of a status on the wire. *)
Definition status_name (s : Status) : string :=
  match s with
  | pending => "pending"
  | uploading => "uploading"
  | transcribing => "transcribing"
  | transcribed => "transcribed"
  | summarizing => "summarizing"
  | completed => "completed"
  | failed => "failed"
  end.

(** Modelled from the spec: the two pipeline variants of section 4.2.
    Two-phase: the task pauses at [transcribed]; one-shot: the pause point is
    auto-advanced. *)
Inductive Mode := TwoPhase | OneShot.

(** Modelled from the spec: the error taxonomy of section 7. *)
Inductive Error :=
| ValidationError | StorageError | TranscriptionError | SummarizationError
| InvalidStateTransition | NotFound.

(** Modelled from the spec: what is captured at intake (section 3). *)
Record Intake := {
  original_filename : string; content_type : string; size_bytes : Z
}.

(** Modelled from the spec: the fields a successful transcription call
    populates (section 3). *)
Record Transcript := {
  transcription : string;
  transcription_language : option string;
  audio_duration : option Q;
  confidence : option Q
}.

(** Modelled from the spec: the fields a successful summarization call
    populates (section 3). *)
Record Summary := {
  summary : string;
  key_points : list string;
  action_items : list string;
  participants : list string;
  meeting_duration : option string
}.

(** Modelled from the spec: the Task Record of the absent back end (design
    document, section 3).  The transcription fields are populated together,
    and so are the summary fields; each group is null until then. *)
Record TaskRecord := {
  id : string;
  status : Status;
  progress : Z;
  message : string;
  intake : Intake;
  persistent_path : option string;
  transcript : option Transcript;
  summary_fields : option Summary;
  created_at : Z;
  updated_at : Z
}.

Definition transcription_of (r : TaskRecord) : option string :=
  transcription <$> transcript r.

Definition summary_of (r : TaskRecord) : option string :=
  summary <$> summary_fields r.

(** Modelled from the spec: the record created when an upload is accepted. *)
Definition new_task (task_id : string) (i : Intake) (now : Z) : TaskRecord :=
  {| id := task_id; status := pending; progress := 0;
     message := "Upload accepted";
     intake := i; persistent_path := None; transcript := None;
     summary_fields := None; created_at := now; updated_at := now |}.

(** Modelled from the spec: a transition overwrites status, progress and
    message and refreshes [updated_at] (section 3). *)
Definition advance (now : Z) (s : Status) (p : Z) (msg : string)
    (r : TaskRecord) : TaskRecord :=
  {| id := id r; status := s; progress := p; message := msg;
     intake := intake r; persistent_path := persistent_path r;
     transcript := transcript r; summary_fields := summary_fields r;
     created_at := created_at r; updated_at := now |}.

(** Modelled from the spec: a failure keeps the progress reached and records
    its cause in the message. *)
Definition fail (now : Z) (msg : string) (r : TaskRecord) : TaskRecord :=
  advance now failed (progress r) msg r.

Definition set_persistent_path (path : string) (r : TaskRecord) : TaskRecord :=
  {| id := id r; status := status r; progress := progress r; message := message r;
     intake := intake r; persistent_path := Some path;
     transcript := transcript r; summary_fields := summary_fields r;
     created_at := created_at r; updated_at := updated_at r |}.

Definition set_transcript (t : Transcript) (r : TaskRecord) : TaskRecord :=
  {| id := id r; status := status r; progress := progress r; message := message r;
     intake := intake r; persistent_path := persistent_path r;
     transcript := Some t; summary_fields := summary_fields r;
     created_at := created_at r; updated_at := updated_at r |}.

Definition set_summary (s : Summary) (r : TaskRecord) : TaskRecord :=
  {| id := id r; status := status r; progress := progress r; message := message r;
     intake := intake r; persistent_path := persistent_path r;
     transcript := transcript r; summary_fields := Some s;
     created_at := created_at r; updated_at := updated_at r |}.

(** Modelled from the spec: the triggers of the transition table of
    section 4.2. *)
Inductive Trigger :=
| BeginProcessing
| RelocationSucceeds (path : string)
| RelocationFails (cause : string)
| GatewayReturnsText (t : Transcript)
| TranscriptionGatewayErrors (cause : string)
| UserTriggersSummarize
| GatewayReturnsSummary (response : string)
| SummaryGatewayErrors (cause : string).

Section Orchestrator.

Variable mode : Mode.

(** Modelled from the spec: the summary parser of the Orchestrator, absent
    from the sources.  It yields the summary fields of a provider response
    it can turn into the expected structure and [None] on any other
    response (section 4.2); nothing more is assumed of it. *)
Variable parse : string → option Summary.

Definition unparseable_message : string :=
  "Summarization error: the provider response holds no structured payload".

(** Modelled from the spec: the transition table of section 4.2.  A
    trigger that the current state does not accept is rejected and the
    record is left as it is. *)
Definition transition (now : Z) (r : TaskRecord) (t : Trigger)
    : Error + TaskRecord :=
  match status r, t with
  | pending, BeginProcessing =>
      inr (advance now uploading 10 "Storing the uploaded file" r)
  | uploading, RelocationSucceeds path =>
      inr (advance now transcribing 30 "Transcribing the audio"
             (set_persistent_path path r))
  | uploading, RelocationFails cause =>
      inr (fail now ("Storage error: " +:+ cause) r)
  | transcribing, GatewayReturnsText t =>
      inr (match mode with
           | TwoPhase => advance now transcribed 70 "Transcription ready"
           | OneShot => advance now summarizing 70 "Summarizing the transcription"
           end (set_transcript t r))
  | transcribing, TranscriptionGatewayErrors cause =>
      inr (fail now ("Transcription error: " +:+ cause) r)
  | transcribed, UserTriggersSummarize =>
      inr (advance now summarizing 80 "Summarizing the transcription" r)
  | summarizing, GatewayReturnsSummary response =>
      match parse response with
      | Some p => inr (advance now completed 100 "Processing completed" (set_summary p r))
      | None => inr (fail now unparseable_message r)
      end
  | summarizing, SummaryGatewayErrors cause =>
      inr (fail now ("Summarization error: " +:+ cause) r)
  | _, _ => inl InvalidStateTransition
  end.

(** Modelled from the spec: the records a task goes through under a sequence
    of timed triggers; a rejected trigger is no transition. *)
Fixpoint run (r : TaskRecord) (ts : list (Z * Trigger)) : list TaskRecord :=
  match ts with
  | [] => []
  | (now, t) :: rest =>
      match transition now r t with
      | inr r' => r' :: run r' rest
      | inl _ => run r rest
      end
  end.

(** Modelled from the spec: the order of the states in the transition
    table, per pipeline variant. *)
Definition table_order : list Status :=
  match mode with
  | TwoPhase => [pending; uploading; transcribing; transcribed; summarizing; completed]
  | OneShot => [pending; uploading; transcribing; summarizing; completed]
  end.

(** Modelled from the spec: the Task Registry of section 4.1, a map from
    task id to record with atomic [Update]. *)
Definition Get (reg : gmap string TaskRecord) (task_id : string)
    : Error + TaskRecord :=
  match reg !! task_id with
  | Some r => inr r
  | None => inl NotFound
  end.

(** Modelled from the spec: [Create] registers a fresh record under an id no
    record of the registry has. *)
Definition Create (reg : gmap string TaskRecord) (i : Intake) (now : Z)
    : string * gmap string TaskRecord :=
  let task_id := fresh (dom reg) in
  (task_id, <[task_id := new_task task_id i now]> reg).

(** Modelled from the spec: [Update] applies a mutator to one record in a
    single step; a rejected mutation leaves the registry as it was. *)
Definition Update (reg : gmap string TaskRecord) (task_id : string)
    (mutator : TaskRecord → Error + TaskRecord)
    : gmap string TaskRecord * (Error + TaskRecord) :=
  match reg !! task_id with
  | None => (reg, inl NotFound)
  | Some r =>
      match mutator r with
      | inr r' => (<[task_id := r']> reg, inr r')
      | inl e => (reg, inl e)
      end
  end.

(** Modelled from the spec: what happens to the registry.  Uploads are
    accepted, the worker flow of a task fires a trigger, clients read. *)
Inductive Op :=
| Accept (i : Intake) (now : Z)
| Fire (task_id : string) (now : Z) (t : Trigger)
| Read (task_id : string).

(** Modelled from the spec: one operation on the registry, giving the
    registry after it and the record a read returned. *)
Definition exec (reg : gmap string TaskRecord) (op : Op)
    : gmap string TaskRecord * option TaskRecord :=
  match op with
  | Accept i now => (snd (Create reg i now), None)
  | Fire task_id now t =>
      (fst (Update reg task_id (λ r, transition now r t)), None)
  | Read task_id => (reg, reg !! task_id)
  end.

(** Every record some read of the run returned. *)
Fixpoint observed (reg : gmap string TaskRecord) (ops : list Op)
    : list TaskRecord :=
  match ops with
  | [] => []
  | op :: rest =>
      let '(reg', seen) := exec reg op in
      match seen with
      | Some r => r :: observed reg' rest
      | None => observed reg' rest
      end
  end.

(** Modelled from the spec: what the summarization gateway did with a
    request. *)
Inductive GatewayResult := Responded (response : string) | Errored (cause : string).

Definition summary_trigger (g : GatewayResult) : Trigger :=
  match g with
  | Responded response => GatewayReturnsSummary response
  | Errored cause => SummaryGatewayErrors cause
  end.

(** Modelled from the spec: [POST /transcription/summarize/{task_id}]
    (section 6).  The summarize transition is taken first; only then is
    the gateway called and its outcome applied. *)
Definition summarize (now : Z) (g : GatewayResult)
    (reg : gmap string TaskRecord) (task_id : string)
    : gmap string TaskRecord * (Error + TaskRecord) :=
  match Update reg task_id (λ r, transition now r UserTriggersSummarize) with
  | (reg1, inr _) =>
      match Update reg1 task_id (λ r, transition now r (summary_trigger g)) with
      | (reg2, inr r2) =>
          (reg2, if decide (status r2 = completed) then inr r2
                 else inl SummarizationError)
      | (reg2, inl e) => (reg2, inl e)
      end
  | (reg1, inl e) => (reg1, inl e)
  end.

End Orchestrator.

(** The state the table leads to from a state when nothing fails; the
    terminal states lead nowhere. *)
Definition next (mode : Mode) (s : Status) : option Status :=
  match s with
  | pending => Some uploading
  | uploading => Some transcribing
  | transcribing =>
      Some match mode with TwoPhase => transcribed | OneShot => summarizing end
  | transcribed => Some summarizing
  | summarizing => Some completed
  | completed | failed => None
  end.

(** The progress the table sets on entering a state. *)
Definition table_progress (mode : Mode) (s : Status) : Z :=
  match s with
  | pending => 0
  | uploading => 10
  | transcribing => 30
  | transcribed => 70
  | summarizing => match mode with TwoPhase => 80 | OneShot => 70 end
  | completed => 100
  | failed => 0
  end.

(** Each element is at most the one after it. *)
Fixpoint nondecreasing (l : list Z) : Prop :=
  match l with
  | a :: (b :: _) as tl => a ≤ b ∧ nondecreasing tl
  | _ => True
  end.

(** Which result fields a record holds in each state. *)
Definition consistent (r : TaskRecord) : Prop :=
  match status r with
  | pending | uploading | transcribing =>
      transcript r = None ∧ summary_fields r = None
  | transcribed | summarizing =>
      is_Some (transcript r) ∧ summary_fields r = None
  | completed => is_Some (transcript r) ∧ is_Some (summary_fields r)
  | failed => True
  end.

(** The record a successful summarize request leaves behind. *)
Definition summarized (now : Z) (p : Summary) (r : TaskRecord) : TaskRecord :=
  advance now completed 100 "Processing completed"
    (set_summary p
       (advance now summarizing 80 "Summarizing the transcription" r)).

End Pipeline.

(** * Persistent storage of the uploaded audio

    The file-storage code of the back end is not among the sources either;
    the naming rule and the retention rule are those of the design document
    (section 4.3) and of [backend/PERSISTENT_STORAGE_INFO.md]. *)
Module Relocator.

(** Modelled from the spec: the wall-clock time a task was created at, field
    by field. *)
Record Timestamp := {
  year : nat; month : nat; day : nat;
  hour : nat; minute : nat; second : nat
}.

Definition digit (n : nat) : ascii := ascii_of_nat (48 + n mod 10).

Definition two_digits (n : nat) : string :=
  String (digit (n / 10)) (String (digit n) EmptyString).

Definition four_digits (n : nat) : string :=
  String (digit (n / 1000)) (String (digit (n / 100)) (two_digits n)).

(** Modelled from the spec: the [YYYYMMDD_HHMMSS] rendering of the creation
    timestamp, each field on its fixed width. *)
Definition stamp (t : Timestamp) : string :=
  four_digits (year t) +:+ two_digits (month t) +:+ two_digits (day t)
  +:+ "_" +:+ two_digits (hour t) +:+ two_digits (minute t)
  +:+ two_digits (second t).

(** Modelled from the spec: the naming rule
    [{creation-timestamp}_{taskID}_{originalFilename}] of the Blob
    Relocator. *)
Definition persistent_name (t : Timestamp) (task_id original_filename : string)
    : string :=
  stamp t +:+ "_" +:+ task_id +:+ "_" +:+ original_filename.


(** The ids of two tasks can be told apart inside a name when they have
    the same length, or when neither contains the underscore that joins the
    parts of the name. *)
Definition separable (id1 id2 : string) : Prop :=
  String.length id1 = String.length id2
  ∨ (Js.contains_char "_" id1 = false ∧ Js.contains_char "_" id2 = false).






End Relocator.

(** ** More of the JavaScript library the components call *)
Module JsText.

(** [Array.prototype.join]. *)
Fixpoint join (sep : string) (xs : list string) : string :=
  match xs with
  | [] => EmptyString
  | [x] => x
  | x :: rest => x +:+ sep +:+ join sep rest
  end.

(** The last character of a text, if it has one. *)
Fixpoint last_char (s : string) : option ascii :=
  match s with
  | EmptyString => None
  | String c EmptyString => Some c
  | String _ rest => last_char rest
  end.

End JsText.

(** ** The numbered lists of the minutes ([MeetingSummaryDisplay])

    The download and the clipboard texts print the key points and the action
    items with
    [items.map((item, index) => `${index + 1}. ${item}`).join('\n')]. *)
Module SummaryDisplay.

(** The line feed ['\n']. *)
Definition lineFeed : ascii := "010".

Definition numberedLine (index : nat) (item : string) : string :=
  pretty (index + 1)%nat +:+ ". " +:+ item.

Definition numberedLines (items : list string) : list string :=
  imap numberedLine items.

Definition numbered (items : list string) : string :=
  JsText.join (String lineFeed EmptyString) (numberedLines items).

End SummaryDisplay.

(** ** The upload form over time ([AudioUploader])

    The gestures on the form: a file is dropped or picked ([beforeUpload]), or
    the selected file is removed ([handleRemove]). *)
Module UploaderFlow.

Import Uploader.

Inductive Event := Dropped (now : N) (file : File) | RemoveClicked.

Definition step (st : State) (ev : Event) : State :=
  match ev with
  | Dropped now file => after (beforeUpload now file st)
  | RemoveClicked => handleRemove st
  end.

Definition run (st : State) (evs : list Event) : State := fold_left step evs st.

(** [uploadProps.accept]:
    [supportedFormats.map(format => `.${format}`).join(',')]. *)
Definition acceptSuffixes : list string :=
  map (λ format, "." +:+ format) supportedFormats.

Definition accept : string := JsText.join "," acceptSuffixes.

(** What holds of the form's state at all times. *)
Definition form_ok (st : State) : Prop :=
  match selectedFile st with
  | Some f =>
      size f ≤ maxSize ∧ formatOk f = true
      ∧ ∃ u, fileList st = [u] ∧ originFileObj u = f
             ∧ uf_name u = name f ∧ uf_size u = size f ∧ uf_type u = type f
             ∧ uf_status u = "done"
  | None => fileList st = []
  end.

End UploaderFlow.

(** ** What the home page renders ([pages/HomePage.tsx], the JSX)

    Each conditional block of the returned tree, with the value it shows. *)
Module HomeView.

Import Api Home.

Record View := {
  uploaderIsProcessing : bool;
  uploaderProgress : Z;
  errorAlert : option Json;
  statusPanel : option ProcessingStatusResponse;
  transcriptionPanel : option TranscriptionResponse;
  createSummaryLoading : bool;
  summaryPanel : option MeetingSummaryResponse;
  processingAnimation : bool
}.

Definition isSome {A} (o : option A) : bool :=
  match o with Some _ => true | None => false end.

Definition view (st : State) : View :=
  {| uploaderIsProcessing := isProcessing st;
     (* [processingStatus?.progress || 0] *)
     uploaderProgress :=
       match processingStatus st with
       | Some status => progress status
       | None => 0
       end;
     (* [{error && (<Alert description={error} ... />)}]: the description
        handed to the alert *)
     errorAlert := errorBanner st;
     (* [{processingStatus && (<ProcessingStatus ... />)}] *)
     statusPanel := processingStatus st;
     (* [{transcriptionResult && !meetingSummary && (...)}] *)
     transcriptionPanel :=
       if isSome (meetingSummary st) then None else transcriptionResult st;
     createSummaryLoading := isCreatingSummary st;
     (* [{meetingSummary && (...)}] *)
     summaryPanel := meetingSummary st;
     (* [{isProcessing && !processingStatus && (...)}] *)
     processingAnimation :=
       (isProcessing st && negb (isSome (processingStatus st)))%bool |}.

(** The state the page is in after a run of events. *)
Definition reach (st : State) (evs : list Event) : State :=
  fold_left (λ st ev, fst (step st ev)) evs st.

End HomeView.

(** ** The form and the page together

    [HomePage] mounts [AudioUploader] with [onFileSelect={handleFileSelect}]:
    the process button is the only way a file reaches the page.  The other
    gestures and the settled promises of the page are as in [Home].  A gesture
    is taken even where the rendered tree would not offer its control, so
    what holds of every run here holds of the runs a user can produce. *)
Module App.

Import Api.

Record State := { form : Uploader.State; page : Home.State }.

Definition initial : State :=
  {| form := Uploader.initial; page := Home.initial |}.

Inductive Event :=
| Dropped (now : N) (file : Uploader.File)
| RemoveClicked
| ProcessClicked
| TranscribeSettled (r : TranscriptionResponse + AxiosError)
| CreateSummaryClicked
| SummarizeSettled (r : MeetingSummaryResponse + AxiosError)
| ResetClicked
| ErrorClosed
| PollTick
| StatusSettled (taskId : string) (r : ProcessingStatusResponse + AxiosError)
| SummaryFetched (r : MeetingSummaryResponse + AxiosError).

Definition onPage (st : State) (ev : Home.Event) : State * list Request :=
  let '(page', calls) := Home.step (page st) ev in
  ({| form := form st; page := page' |}, calls).

Definition onForm (st : State) (ev : UploaderFlow.Event) : State * list Request :=
  ({| form := UploaderFlow.step (form st) ev; page := page st |}, []).

Definition step (st : State) (ev : Event) : State * list Request :=
  match ev with
  | Dropped now file => onForm st (UploaderFlow.Dropped now file)
  | RemoveClicked => onForm st UploaderFlow.RemoveClicked
  | ProcessClicked =>
      (* [handleProcess]: [if (selectedFile) onFileSelect(selectedFile)] *)
      match Uploader.handleProcess (form st) with
      | Some file => onPage st (Home.FileSelected file)
      | None => (st, [])
      end
  | TranscribeSettled r => onPage st (Home.TranscribeSettled r)
  | CreateSummaryClicked => onPage st Home.CreateSummaryClicked
  | SummarizeSettled r => onPage st (Home.SummarizeSettled r)
  | ResetClicked => onPage st Home.ResetClicked
  | ErrorClosed => onPage st Home.ErrorClosed
  | PollTick => onPage st Home.PollTick
  | StatusSettled taskId r => onPage st (Home.StatusSettled taskId r)
  | SummaryFetched r => onPage st (Home.SummaryFetched r)
  end.

(** The state after a run, and the REST calls issued along it. *)
Fixpoint run (st : State) (evs : list Event) : State * list Request :=
  match evs with
  | [] => (st, [])
  | ev :: rest =>
      let '(st1, calls1) := step st ev in
      let '(st2, calls2) := run st1 rest in
      (st2, calls1 ++ calls2)
  end.

End App.

(** * Sample data used by the examples *)
Module Fixtures.

(** The line feed. *)
Definition nl : string := String "010" EmptyString.

Import Uploader.

Definition meeting_mp3 : File :=
  {| name := "meeting.mp3"; size := 8 * 1024 * 1024; type := "audio/mpeg" |}.

Definition shouted_mp3 : File :=
  {| name := "MEETING.MP3"; size := 8 * 1024 * 1024; type := "audio/mpeg" |}.

Definition bare_mp3 : File := {| name := "mp3"; size := 1; type := "" |}.

Import Api.

Definition stalled_at_transcribed (progress : Z) : ProcessingStatusResponse :=
  {| task_id := "983f4934-c60e-49b3-91bd-8337aa612758";
     status := "transcribed";
     progress := progress;
     message := "";
     result := None;
     created_at := "2025-09-03T10:44:25";
     updated_at := "2025-09-03T10:45:02" |}.

Definition failed_without_message : ProcessingStatusResponse :=
  {| task_id := "983f4934-c60e-49b3-91bd-8337aa612758";
     status := "failed";
     progress := 30;
     message := "";
     result := None;
     created_at := "2025-09-03T10:44:25";
     updated_at := "2025-09-03T10:45:02" |}.

Definition failed_with_message : ProcessingStatusResponse :=
  {| task_id := "983f4934-c60e-49b3-91bd-8337aa612758";
     status := "failed";
     progress := 30;
     message := "Transcription failed: audio could not be decoded";
     result := None;
     created_at := "2025-09-03T10:44:25";
     updated_at := "2025-09-03T10:45:02" |}.

Import Pipeline.

Definition fixture_summary : Summary :=
  {| summary := "Weekly planning meeting";
     key_points := ["Release moved to Friday"];
     action_items := ["Send the minutes"];
     participants := ["An"; "Binh"];
     meeting_duration := Some "5:30" |}.

(** A parser for the examples: the one response it knows is [{}]. *)
Definition fixture_parse (s : string) : option Summary :=
  if String.eqb s "{}" then Some fixture_summary else None.

Definition fixture_intake : Intake :=
  {| original_filename := "test_audio.mp3";
     content_type := "audio/mpeg";
     size_bytes := 2204 |}.

Definition fixture_transcript : Transcript :=
  {| transcription := "Chung ta bat dau";
     transcription_language := Some "vi";
     audio_duration := None;
     confidence := None |}.

Definition fixture_summarizing : TaskRecord :=
  {| id := "983f4934-c60e-49b3-91bd-8337aa612758";
     status := summarizing; progress := 80;
     message := "Summarizing the transcription";
     intake := fixture_intake;
     persistent_path := Some "processed_audio_files/a.mp3";
     transcript := Some fixture_transcript;
     summary_fields := None;
     created_at := 0; updated_at := 4 |}.

Definition fixture_pending : TaskRecord :=
  new_task "983f4934-c60e-49b3-91bd-8337aa612758" fixture_intake 0.

Definition fixture_ops : list Op :=
  let task_id := fresh (dom (∅ : gmap string TaskRecord)) in
  [Accept fixture_intake 0;
   Fire task_id 1 BeginProcessing;
   Fire task_id 2 (RelocationSucceeds "processed_audio_files/a.mp3");
   Fire task_id 3 (GatewayReturnsText fixture_transcript);
   Read task_id].





(** A fenced block with a no-break space after the fence. *)
Definition no_break_space_block : list N :=
  Notes.codes "```json" ++ [160%N] ++ Notes.codes "{}" ++ Notes.codes "```".

End Fixtures.

(** * More sample data *)
Module Samples.

Import Api.

Definition first_transcription : TranscriptionResponse :=
  {| tr_task_id := "983f4934-c60e-49b3-91bd-8337aa612758";
     tr_transcription := "Chung ta bat dau";
     tr_transcription_language := Some "vi";
     tr_audio_duration := None;
     tr_confidence := None;
     tr_processed_at := "2025-09-03T11:32:01";
     tr_audio_file_path := None |}.

Definition first_summary : MeetingSummaryResponse :=
  {| ms_task_id := "983f4934-c60e-49b3-91bd-8337aa612758";
     ms_summary := "Weekly planning meeting";
     ms_key_points := ["Release moved to Friday"];
     ms_action_items := ["Send the minutes"];
     ms_participants := [];
     ms_meeting_duration := None;
     ms_processed_at := "2025-09-03T11:35:10";
     ms_audio_file_path := None;
     ms_transcription := None;
     ms_transcription_language := None |}.

Definition first_completed : ProcessingStatusResponse :=
  {| task_id := "983f4934-c60e-49b3-91bd-8337aa612758";
     status := "completed";
     progress := 100;
     message := "";
     result := None;
     created_at := "2025-09-03T10:44:25";
     updated_at := "2025-09-03T10:45:02" |}.

(** The answer to a summarize request that came too early: an HTTP error
    with a text detail. *)
Definition not_transcribed_yet : AxiosError :=
  {| detail := Some (JString "Task is not in transcribed state");
     error_message := Some "Request failed with status code 400" |}.

(** The answer to a request that failed validation: the detail is a list of
    objects. *)
Definition unprocessable : AxiosError :=
  {| detail :=
       Some (JArray
               [JObject [("loc", JArray [JString "body"; JString "file"]);
                         ("msg", JString "Field required");
                         ("type", JString "missing")]]);
     error_message := Some "Request failed with status code 422" |}.

Definition second_recording : Uploader.File :=
  {| Uploader.name := "retro.wav"; Uploader.size := 1024; Uploader.type := "audio/wav" |}.

Definition summarizing_at (percent : Z) : ProcessingStatusResponse :=
  {| task_id := "983f4934-c60e-49b3-91bd-8337aa612758";
     status := "summarizing";
     progress := percent;
     message := "";
     result := None;
     created_at := "2025-09-03T10:44:25";
     updated_at := "2025-09-03T10:45:02" |}.

End Samples.

(** * Properties of the front end *)

Section JsFacts.

Lemma split_nonempty sep s : Js.split sep s ≠ [].
Proof.
  destruct s as [|c s]; simpl; [done|].
  destruct (Ascii.eqb c sep); [done|].
  by destruct (Js.split sep s).
Qed.

Lemma split_no_sep sep s :
  Js.contains_char sep s = false → Js.split sep s = [s].
Proof.
  induction s as [|c s IH]; simpl; [done|].
  intros [Hc Hs]%orb_false_elim.
  rewrite Hc, (IH Hs). done.
Qed.

Lemma split_app sep pre rest :
  Js.split sep (pre +:+ String sep rest) = Js.split sep pre ++ Js.split sep rest.
Proof.
  induction pre as [|c pre IH]; simpl.
  - by rewrite Ascii.eqb_refl.
  - rewrite IH. destruct (Ascii.eqb c sep); [done|].
    pose proof (split_nonempty sep pre) as Hne.
    by destruct (Js.split sep pre).
Qed.

(** [split] then [pop] is the text after the last separator. *)
Lemma pop_split_dotted sep stem seg :
  Js.contains_char sep seg = false →
  Js.pop (Js.split sep (stem +:+ String sep seg)) = Some seg.
Proof.
  intros Hseg. unfold Js.pop.
  rewrite split_app, (split_no_sep _ _ Hseg), last_snoc. done.
Qed.

Lemma pop_split_dotless sep s :
  Js.contains_char sep s = false → Js.pop (Js.split sep s) = Some s.
Proof. intros Hs. unfold Js.pop. by rewrite (split_no_sep _ _ Hs). Qed.

Lemma includes_In xs x : Js.includes xs x = true ↔ In x xs.
Proof.
  unfold Js.includes. rewrite existsb_exists. split.
  - intros (y & Hy & ->%String.eqb_eq). done.
  - intros Hx. exists x. split; [done|apply String.eqb_refl].
Qed.

End JsFacts.

Section UploaderFacts.

Import Uploader.

Lemma formatOk_segment (f : File) (seg : string) :
  Js.pop (Js.split "." (name f)) = Some seg →
  fileExtension f = Some (Js.toLowerCase seg)
  ∧ (formatOk f = true ↔ In (Js.toLowerCase seg) supportedFormats).
Proof.
  intros Hpop. unfold formatOk, fileExtension. rewrite Hpop.
  split; [done|]. rewrite <- includes_In. cbn [fmap option_fmap option_map].
  destruct (String.eqb_spec (Js.toLowerCase seg) "") as [->|_]; [|done].
  split; discriminate.
Qed.

Lemma beforeUpload_verdict (now : N) (f : File) (st : State) :
  let out := beforeUpload now f st in
  if ((size f >? maxSize) || negb (formatOk f))%bool
  then after out = st ∧ errors out ≠ []
  else selectedFile (after out) = Some f ∧ errors out = [].
Proof.
  unfold beforeUpload. simpl.
  destruct (size f >? maxSize); simpl; [done|].
  destruct (formatOk f); simpl; done.
Qed.

End UploaderFacts.

Section ExtensionFacts.

Lemma split_two sep s :
  Js.contains_char sep s = true → ∃ a b l, Js.split sep s = a :: b :: l.
Proof.
  induction s as [|c s IH]; simpl; [done|].
  destruct (Ascii.eqb c sep) eqn:Hc; simpl.
  - intros _. pose proof (split_nonempty sep s).
    destruct (Js.split sep s) as [|b l]; [done|]. by exists EmptyString, b, l.
  - intros (a & b & l & ->)%IH. by exists (String c a), b, l.
Qed.

(** The documented notion of extension and the page's [split]/[pop] agree on
    every name that has a dot; a name without a dot has no extension. *)
Lemma extension_of_split s :
  Page.extension_of s =
    if Js.contains_char "." s then Js.pop (Js.split "." s) else None.
Proof.
  induction s as [|c s IH]; simpl; [done|]. rewrite IH. unfold Js.pop.
  destruct (Js.contains_char "." s) eqn:Hs.
  - rewrite orb_true_r.
    destruct (split_two _ _ Hs) as (a & b & l & ->).
    assert (∃ e, last (b :: l) = Some e) as [e He].
    { destruct (last (b :: l)) eqn:E; [eauto|]. by apply last_None in E. }
    destruct (Ascii.eqb c "."); cbn [last]; fold (last (b :: l));
      by rewrite He.
  - rewrite orb_false_r, (split_no_sep _ _ Hs).
    destruct (Ascii.eqb c "."); done.
Qed.

Lemma extension_of_pop s ext :
  Page.extension_of s = Some ext → Js.pop (Js.split "." s) = Some ext.
Proof.
  rewrite extension_of_split. by destruct (Js.contains_char "." s).
Qed.

Lemma extension_of_dotless s :
  Js.contains_char "." s = false → Page.extension_of s = None.
Proof. intros Hs. by rewrite extension_of_split, Hs. Qed.

End ExtensionFacts.

Section UploadValidation.

Import Uploader Fixtures.

Lemma submit_unfold now f :
  Page.submit now f =
    match selectedFile (after (beforeUpload now f initial)) with
    | Some g => [Api.transcribeAudio g]
    | None => []
    end.
Proof. reflexivity. Qed.

(** C4, as amended.  For a file whose name has an extension (text after the
    last dot), dropping it on the empty form is refused -- a toast is raised,
    nothing is selected, and pressing the process button sends no request,
    so no task is ever created -- exactly when its size exceeds
    25*1024*1024 bytes or its extension, lowercased, is not one of mp3, wav,
    m4a, mp4, webm, flac; it is selected, and the process button then sends
    the transcription request, exactly when it is within the size limit and
    bears one of those extensions. *)
Theorem beforeUpload_rejects_by_size_or_extension
    (now : N) (f : File) (ext : string) :
  Page.extension_of (name f) = Some ext →
  let out := beforeUpload now f initial in
  ((errors out ≠ [] ∧ selectedFile (after out) = None ∧ Page.submit now f = [])
     ↔ (size f > maxSize ∨ ¬ In (Js.toLowerCase ext) supportedFormats))
  ∧ ((errors out = [] ∧ selectedFile (after out) = Some f
      ∧ Page.submit now f = [Api.transcribeAudio f])
     ↔ (size f ≤ maxSize ∧ In (Js.toLowerCase ext) supportedFormats))
  ∧ maxSize = 26214400.
Proof.
  intros Hext%extension_of_pop out.
  destruct (formatOk_segment f ext Hext) as [_ Hfmt].
  pose proof (beforeUpload_verdict now f initial) as Hv. fold out in Hv.
  rewrite submit_unfold. fold out.
  split; [|split; [|reflexivity]].
  - rewrite Z.gtb_ltb in Hv.
    destruct (Z.ltb_spec maxSize (size f)) as [Hlt|Hle]; simpl in Hv.
    + destruct Hv as [-> Hne]. simpl. split; [intros _; left; lia|done].
    + destruct (formatOk f) eqn:Hok; simpl in Hv.
      * destruct Hv as [Hsel Herr]. rewrite Hsel, Herr. split.
        -- intros [Hne _]. done.
        -- intros [Hgt|Hnot]; [lia|]. destruct Hnot. by apply Hfmt.
      * destruct Hv as [-> Hne]. simpl. split; [|done].
        intros _. right. intros Hin%Hfmt. done.
  - rewrite Z.gtb_ltb in Hv.
    destruct (Z.ltb_spec maxSize (size f)) as [Hlt|Hle]; simpl in Hv.
    + destruct Hv as [-> Hne]. simpl. split; [intros [? _]; done|lia].
    + destruct (formatOk f) eqn:Hok; simpl in Hv.
      * destruct Hv as [Hsel Herr]. rewrite Hsel, Herr. split; [|done].
        intros _. split; [lia|by apply Hfmt].
      * destruct Hv as [-> Hne]. simpl. split; [intros [? _]; done|].
        intros [_ Hin%Hfmt]. done.
Qed.

Lemma beforeUpload_rejects_by_size_or_extension_witness :
  Page.extension_of (name meeting_mp3) = Some "mp3"
  ∧ Page.submit 0 meeting_mp3 = [Api.transcribeAudio meeting_mp3].
Proof.
  split; [reflexivity|].
  apply (beforeUpload_rejects_by_size_or_extension 0 meeting_mp3 "mp3");
    [reflexivity|].
  split; [unfold maxSize; simpl; lia|]. simpl. tauto.
Defined.

(** C4, as stated, fails on two files within the size limit.  A file named
    [mp3] has no extension, and the extension [MP3] of [MEETING.MP3] is not
    literally one of the listed formats; by the stated rule both are refused,
    yet each is selected and the process button sends its transcription
    request. *)
Lemma beforeUpload_selects_beyond_listed_extensions :
  let refused f :=
    errors (beforeUpload 0 f initial) ≠ [] ∧ Page.submit 0 f = [] in
  (Page.extension_of (name bare_mp3) = None
   ∧ size bare_mp3 ≤ maxSize
   ∧ Page.refused_as_documented bare_mp3
   ∧ selectedFile (after (beforeUpload 0 bare_mp3 initial)) = Some bare_mp3
   ∧ Page.submit 0 bare_mp3 = [Api.transcribeAudio bare_mp3]
   ∧ ¬ (refused bare_mp3 ↔ Page.refused_as_documented bare_mp3))
  ∧ (Page.extension_of (name shouted_mp3) = Some "MP3"
     ∧ size shouted_mp3 ≤ maxSize
     ∧ Page.refused_as_documented shouted_mp3
     ∧ selectedFile (after (beforeUpload 0 shouted_mp3 initial)) = Some shouted_mp3
     ∧ Page.submit 0 shouted_mp3 = [Api.transcribeAudio shouted_mp3]
     ∧ ¬ (refused shouted_mp3 ↔ Page.refused_as_documented shouted_mp3)).
Proof.
  assert (Page.refused_as_documented bare_mp3) as Hbare.
  { right. intros (ext & Hext & _). discriminate Hext. }
  assert (Page.refused_as_documented shouted_mp3) as Hshouted.
  { right. intros (ext & [= <-] & Hin). simpl in Hin.
    destruct Hin as [H|[H|[H|[H|[H|[H|[]]]]]]]; discriminate H. }
  split.
  - repeat split; try reflexivity; try done.
    intros [_ Hback]. by destruct (Hback Hbare) as [Hne _].
  - repeat split; try reflexivity; try done.
    intros [_ Hback]. by destruct (Hback Hshouted) as [Hne _].
Qed.

(** C10.  The format check compares the lowercased last dot-separated
    segment of the name with the supported formats: the text after the last
    dot when the name has one, the whole name when it has none.  So
    [MEETING.MP3] passes, a file named just [mp3] passes, and a dotless name
    passes only when, lowercased, it is itself a supported format. *)
Theorem format_check_compares_lowercased_last_segment
    (f : File) (stem seg : string) :
  Js.contains_char "." seg = false →
  name f = seg ∨ name f = stem +:+ "." +:+ seg →
  fileExtension f = Some (Js.toLowerCase seg)
  ∧ (formatOk f = true ↔ In (Js.toLowerCase seg) supportedFormats)
  ∧ formatOk {| name := "MEETING.MP3"; size := 0; type := "" |} = true
  ∧ formatOk {| name := "mp3"; size := 0; type := "" |} = true
  ∧ formatOk {| name := "README"; size := 0; type := "" |} = false.
Proof.
  intros Hseg Hname.
  assert (Js.pop (Js.split "." (name f)) = Some seg) as Hpop.
  { destruct Hname as [->| ->].
    - by apply pop_split_dotless.
    - by apply pop_split_dotted. }
  destruct (formatOk_segment f seg Hpop) as [Hext Hok].
  repeat split; try reflexivity; try done; apply Hok.
Qed.

Lemma format_check_compares_lowercased_last_segment_witness :
  formatOk bare_mp3 = true ∧ fileExtension bare_mp3 = Some "mp3".
Proof.
  destruct (format_check_compares_lowercased_last_segment bare_mp3 "" "mp3")
    as (Hext & Hok & _); [reflexivity|by left|].
  split; [|exact Hext]. apply Hok. simpl. tauto.
Defined.

End UploadValidation.

Section StatusValues.

Import StatusView Fixtures.

(** C5, as stated, fails: [transcribed] is among the documented status
    values but is not a member of the client's [ProcessingStatus] type, so
    the two sets differ. *)
Lemma transcribed_is_not_a_ProcessingStatus :
  In "transcribed" Page.documented_statuses
  ∧ ¬ In "transcribed" Api.ProcessingStatus
  ∧ ¬ (∀ s, In s Api.ProcessingStatus ↔ In s Page.documented_statuses).
Proof.
  assert (¬ In "transcribed" Api.ProcessingStatus) as Hnot.
  { simpl. intros [H|[H|[H|[H|[H|[H|[]]]]]]]; discriminate H. }
  split; [simpl; tauto|]. split; [exact Hnot|].
  intros Hall. apply Hnot, Hall. simpl. tauto.
Qed.

Local Ltac literal_cases s :=
  repeat match goal with
    | |- context [String.eqb s ?lit] =>
        destruct (String.eqb_spec s lit) as [->|?]
    end.

(** C5, as amended.  The status values of the client are exactly pending,
    uploading, transcribing, summarizing, completed and failed -- the
    documented ones without [transcribed] -- and these are exactly the
    values the status panel has a text and a colour for; a [transcribed]
    status is shown as unknown, grey, with every timeline step grey and no
    progress bar. *)
Theorem ProcessingStatus_has_six_values (s : string) (progress : Z) :
  (In s Api.ProcessingStatus
     ↔ In s Page.documented_statuses ∧ s ≠ "transcribed")
  ∧ (In s Api.ProcessingStatus ↔ getStatusText s ≠ "Không xác định")
  ∧ (In s Api.ProcessingStatus ↔ getStatusColor s ≠ "#d9d9d9")
  ∧ getStatusText "transcribed" = "Không xác định"
  ∧ getStatusColor "transcribed" = "#d9d9d9"
  ∧ map color (getTimelineItems (stalled_at_transcribed progress))
      = ["#d9d9d9"; "#d9d9d9"; "#d9d9d9"; "#d9d9d9"]
  ∧ map progressBar (getTimelineItems (stalled_at_transcribed progress))
      = [None; None; None; None].
Proof.
  split; [|split; [|split; [|repeat split]]].
  - simpl. split.
    + intros [<-|[<-|[<-|[<-|[<-|[<-|[]]]]]]]; (split; [tauto|discriminate]).
    + intros [[<-|[<-|[<-|[<-|[<-|[<-|[<-|[]]]]]]]] Hne]; tauto.
  - unfold getStatusText. literal_cases s; simpl;
      (split; [intros _; discriminate|tauto]) || (split; [|done]).
    intros [<-|[<-|[<-|[<-|[<-|[<-|[]]]]]]]; done.
  - unfold getStatusColor. literal_cases s; simpl;
      (split; [intros _; discriminate|tauto]) || (split; [|done]).
    intros [<-|[<-|[<-|[<-|[<-|[<-|[]]]]]]]; done.
Qed.

(** The status panel and the client type against the documented state
    machine: the timeline lists the one-shot order after [pending], and the
    client type spells every documented state but [transcribed]. *)
Lemma timeline_lists_one_shot_order :
  map Pipeline.status_name (tail (Pipeline.table_order Pipeline.OneShot)) = statuses.
Proof. reflexivity. Qed.

(** For a status that is a step of the timeline, the steps before it are
    drawn as done, the step itself in the colour of the status with the
    progress bar under it unless it is the last one, and the steps after it
    grey. *)
Lemma timeline_marks_steps_in_order
    (r : Api.ProcessingStatusResponse) (i j : nat) (item : TimelineItem) :
  statuses !! i = Some (Api.status r) →
  getTimelineItems r !! j = Some item →
  color item
  = (if (j <? i)%nat then "#52c41a"
     else if (j =? i)%nat then getStatusColor (Api.status r)
     else "#d9d9d9")
  ∧ progressBar item
    = (if ((j =? i)%nat && negb (i =? 3)%nat)%bool
       then Some (Api.progress r) else None).
Proof.
  unfold getTimelineItems, timelineItem, statuses.
  do 4 (try destruct i as [|i]); simpl; try done;
    intros [= <-];
    do 4 (try destruct j as [|j]); simpl; try done;
    intros [= <-]; done.
Qed.

Lemma documented_statuses_spelled :
  map Pipeline.status_name
    [Pipeline.pending; Pipeline.uploading; Pipeline.transcribing;
     Pipeline.transcribed; Pipeline.summarizing; Pipeline.completed;
     Pipeline.failed]
  = Page.documented_statuses.
Proof. reflexivity. Qed.

Lemma client_type_lacks_transcribed (s : Pipeline.Status) :
  In (Pipeline.status_name s) Api.ProcessingStatus ↔ s ≠ Pipeline.transcribed.
Proof.
  destruct s; simpl; split; try done; try tauto.
  intros [H|[H|[H|[H|[H|[H|[]]]]]]]; discriminate H.
Qed.

End StatusValues.

Section FailureDisplay.

Import Api Fixtures.

(** C8, as stated, fails on a failed task whose message is empty: the page
    shows the generic text of its fallback, not a message of the task, and
    the status panel shows no message at all. *)
Lemma failed_with_empty_message_shows_generic_text :
  let st' := fst (Home.onStatus (task_id failed_without_message)
                    (inl failed_without_message) Home.initial) in
  status failed_without_message = "failed"
  ∧ Home.error st' = Some (JString "Xử lý thất bại")
  ∧ Home.error st' ≠ Some (JString (message failed_without_message))
  ∧ Home.errorBanner st' = Some (JString Home.failedFallback)
  ∧ StatusView.failedBox failed_without_message = None.
Proof. repeat split; done. Qed.

Lemma or_else_nonempty s fallback : s ≠ "" → Js.or_else (Some s) fallback = s.
Proof. intros Hs. simpl. by destruct (String.eqb_spec s ""). Qed.

Lemma truthy_nonempty s : s ≠ "" → Js.truthy (Some s) = true.
Proof. intros Hs. simpl. by destruct (String.eqb_spec s ""). Qed.

(** C8, as amended.  When a poll returns a failed task, the page stores the
    status, stops processing and issues no further call; if the task's
    message is non-empty, that very message is what the error banner shows
    and what the status panel prints after its prefix; if the message is
    empty, the banner shows the page's generic fallback text and the panel
    prints nothing. *)
Theorem failed_poll_surfaces_message_or_fallback
    (taskId : string) (s : ProcessingStatusResponse) (st : Home.State) :
  status s = "failed" →
  let st' := fst (Home.onStatus taskId (inl s) st) in
  Home.processingStatus st' = Some s
  ∧ Home.isProcessing st' = false
  ∧ snd (Home.onStatus taskId (inl s) st) = []
  ∧ (message s ≠ "" →
       Home.error st' = Some (JString (message s))
       ∧ Home.errorBanner st' = Some (JString (message s))
       ∧ StatusView.failedBox s = Some ("Lỗi: " +:+ message s))
  ∧ (message s = "" →
       Home.error st' = Some (JString Home.failedFallback)
       ∧ Home.errorBanner st' = Some (JString Home.failedFallback)
       ∧ StatusView.failedBox s = None).
Proof.
  intros Hfailed. unfold Home.onStatus, StatusView.failedBox, Home.errorBanner.
  rewrite Hfailed. cbn [String.eqb Ascii.eqb Bool.eqb fst snd andb].
  cbn [Home.setIsLoadingStatus Home.setIsProcessing Home.setError
       Home.setProcessingStatus Home.error Home.processingStatus
       Home.isProcessing].
  split; [done|]. split; [done|]. split; [done|]. split.
  - intros Hmsg. rewrite (or_else_nonempty _ _ Hmsg), (truthy_nonempty _ Hmsg).
    cbn [truthy]. apply truthy_nonempty in Hmsg. cbn [Js.truthy] in Hmsg.
    by rewrite Hmsg.
  - intros ->. done.
Qed.

Lemma failed_poll_surfaces_message_or_fallback_witness :
  status failed_with_message = "failed"
  ∧ Home.errorBanner
      (fst (Home.onStatus "t" (inl failed_with_message) Home.initial))
    = Some (JString "Transcription failed: audio could not be decoded").
Proof.
  split; [reflexivity|].
  destruct (failed_poll_surfaces_message_or_fallback
              "t" failed_with_message Home.initial)
    as (_ & _ & _ & Hmsg & _); [reflexivity|].
  apply Hmsg. discriminate.
Defined.

End FailureDisplay.

Section ShippedWorkflow.

Import Api Fixtures.

(** The calls one event can cause. *)
Lemma step_calls (st : Home.State) (ev : Home.Event) (r : Request) :
  In r (snd (Home.step st ev)) →
  (∃ file, ev = Home.FileSelected file ∧ r = transcribeAudio file)
  ∨ (∃ taskId, ev = Home.CreateSummaryClicked
               ∧ Home.currentTaskId st = Some taskId
               ∧ r = createSummaryFromTranscription taskId)
  ∨ (∃ taskId, r = getTaskStatus taskId)
  ∨ (∃ taskId, r = getMeetingSummary taskId).
Proof.
  destruct ev as [file|res| |res| | | |taskId res|res]; simpl; try done.
  - intros [<-|[]]. left. eauto.
  - unfold Home.handleCreateSummary.
    destruct (Home.currentTaskId st) as [taskId|] eqn:Hid; simpl; [|done].
    destruct (String.eqb taskId ""); simpl; [done|].
    intros [<-|[]]. right; left. eauto.
  - unfold Home.pollTick. destruct (Home.polling st) as [taskId|]; simpl; [|done].
    intros [<-|[]]. right; right; left. eauto.
  - unfold Home.onStatus. destruct res as [s|e]; simpl; [|done].
    destruct (String.eqb (status s) "completed"); simpl.
    + intros [<-|[]]. right; right; right. eauto.
    + destruct (String.eqb (status s) "failed"); simpl; done.
Qed.

Lemma calls_from_some_event (st : Home.State) (evs : list Home.Event) (r : Request) :
  In r (Home.calls st evs) →
  ∃ st' ev, In ev evs ∧ In r (snd (Home.step st' ev)).
Proof.
  revert st. induction evs as [|ev evs IH]; simpl; [done|].
  intros st. destruct (Home.step st ev) as [st1 rs] eqn:Hstep.
  rewrite in_app_iff. intros [Hr|Hr].
  - exists st, ev. rewrite Hstep. auto.
  - destruct (IH _ Hr) as (st' & ev' & Hev & Hin). exists st', ev'. auto.
Qed.

End ShippedWorkflow.

(** * Properties of the pipeline *)

Section StringFacts.

Lemma append_nil_l (b : string) : EmptyString +:+ b = b.
Proof. reflexivity. Qed.

Lemma append_cons (x : ascii) (a b : string) :
  String x a +:+ b = String x (a +:+ b).
Proof. reflexivity. Qed.

Lemma append_assoc (a b c : string) : (a +:+ b) +:+ c = a +:+ (b +:+ c).
Proof.
  induction a as [|x a IH]; [done|].
  rewrite !append_cons. f_equal. exact IH.
Qed.

Lemma append_empty_r (a : string) : a +:+ EmptyString = a.
Proof.
  induction a as [|x a IH]; [done|]. rewrite append_cons. f_equal. exact IH.
Qed.

End StringFacts.

Section StateMachine.

Import Pipeline.

Variable parse : string → option Summary.

(** An accepted trigger either moves the task to the next state of the
    table, at that state's progress, or fails it where it stands. *)
Lemma transition_step mode now r t r' k :
  table_order mode !! k = Some (status r) →
  transition mode parse now r t = inr r' →
  (table_order mode !! S k = Some (status r')
   ∧ progress r' = table_progress mode (status r')
   ∧ table_progress mode (status r) ≤ table_progress mode (status r'))
  ∨ (status r' = failed ∧ progress r' = progress r
     ∧ is_Some (table_order mode !! S k)).
Proof.
  unfold transition, table_order.
  destruct mode; do 7 (try destruct k as [|k]); simpl; try done;
    intros [= <-];
    destruct t as [|path|cause|tr|cause| |response|cause];
    try discriminate;
    try destruct (parse response);
    intros [= <-]; simpl;
    (by left) || (right; split; [done|split; [done|eauto]]).
Qed.

Lemma terminal_rejects mode now r t :
  next mode (status r) = None → transition mode parse now r t = inl InvalidStateTransition.
Proof.
  unfold transition.
  destruct (status r), t; simpl; try done; destruct mode; done.
Qed.

Lemma run_terminal mode r ts : next mode (status r) = None → run mode parse r ts = [].
Proof.
  intros Hr. induction ts as [|[now t] ts IH]; simpl; [done|].
  by rewrite (terminal_rejects _ _ _ _ Hr).
Qed.

Lemma run_follows_table mode ts : ∀ r k,
  table_order mode !! k = Some (status r) →
  progress r = table_progress mode (status r) →
  ∃ j, (map status (run mode parse r ts) = take j (drop (S k) (table_order mode))
        ∨ (map status (run mode parse r ts)
           = take j (drop (S k) (table_order mode)) ++ [failed]
           ∧ (S k + j < length (table_order mode))%nat))
       ∧ nondecreasing (progress r :: map progress (run mode parse r ts)).
Proof.
  induction ts as [|[now t] ts IH]; intros r k Hk Hp.
  - exists 0%nat. simpl. split; [by left|done].
  - cbn [run].
    destruct (transition mode parse now r t) as [e|r'] eqn:Ht; [by apply IH|].
    destruct (transition_step _ _ _ _ _ _ Hk Ht)
      as [(Hk' & Hp' & Hle)|(Hfailed & Hp' & Hroom)].
    + destruct (IH r' (S k) Hk' Hp') as (j & Hpath & Hmono).
      exists (S j). rewrite (drop_S _ _ _ Hk'). cbn [map take app].
      split.
      * destruct Hpath as [-> | [-> Hlt]]; [by left|right]. split; [done|lia].
      * split; [lia|done].
    + rewrite (run_terminal mode r' ts) by (by rewrite Hfailed).
      exists 0%nat. simpl. rewrite Hfailed. split; [|lia].
      right. split; [done|]. apply lookup_lt_is_Some in Hroom. lia.
Qed.

End StateMachine.

Section TaskOrder.

Import Pipeline.

Lemma table_prefix_NoDup mode n :
  NoDup (take n (table_order mode))
  ∧ NoDup (take n (table_order mode) ++ [failed]).
Proof.
  destruct mode; do 7 (try destruct n as [|n]); simpl; compute_done.
Qed.

(** C1.  From the record created for an accepted upload, and under any
    sequence of triggers, the states a task goes through are an initial
    stretch of the table order -- pending, uploading, transcribing, then
    transcribed, summarizing, completed in two-phase mode or summarizing,
    completed in one-shot mode -- possibly closed by failed in place of the
    next state; no state occurs twice, and progress never decreases along the
    way. *)
Theorem task_follows_table_order
    (mode : Mode) (parse : string → option Summary)
    (task_id : string) (i : Intake) (now : Z) (ts : list (Z * Trigger)) :
  let history := new_task task_id i now
                 :: run mode parse (new_task task_id i now) ts in
  ∃ n, (map status history = take (S n) (table_order mode)
        ∨ (map status history = take (S n) (table_order mode) ++ [failed]
           ∧ (S n < length (table_order mode))%nat))
       ∧ NoDup (map status history)
       ∧ nondecreasing (map progress history).
Proof.
  intros history.
  destruct (run_follows_table parse mode ts (new_task task_id i now) 0%nat)
    as (j & Hpath & Hmono); [by destruct mode|done|].
  exists j. unfold history. cbn [map].
  change (status (new_task task_id i now)) with pending.
  change (progress (new_task task_id i now)) with 0 in *.
  assert (∀ l, pending :: take j (drop 1 (table_order mode)) ++ l
               = take (S j) (table_order mode) ++ l) as Hhead
    by (intros l; by destruct mode).
  pose proof (Hhead []) as Hhead0. rewrite !app_nil_r in Hhead0.
  destruct (table_prefix_NoDup mode (S j)) as [Hnd Hndf].
  destruct Hpath as [Hpath|[Hpath Hroom]]; rewrite Hpath.
  - rewrite Hhead0. split; [by left|]. split; [done|].
    cbn [map] in Hmono. exact Hmono.
  - rewrite (Hhead [failed]). split; [right; split; [done|lia]|].
    split; [done|]. cbn [map] in Hmono. exact Hmono.
Qed.

End TaskOrder.

Section RegistryFacts.

Import Pipeline.

Variable parse : string → option Summary.

Lemma transition_consistent mode now r t r' :
  consistent r → transition mode parse now r t = inr r' → consistent r'.
Proof.
  unfold consistent, transition.
  destruct (status r) eqn:Hs;
    destruct t as [|path|cause|tr|cause| |response|cause];
    try discriminate;
    try destruct (parse response);
    destruct mode; intros [Ht Hsum] [= <-]; simpl; eauto.
Qed.

Lemma exec_consistent mode reg op :
  map_Forall (λ _, consistent) reg →
  map_Forall (λ _, consistent) (fst (exec mode parse reg op)).
Proof.
  intros Hreg. destruct op as [i now|task_id now t|task_id]; simpl; [| |done].
  - apply map_Forall_insert_2; [|done]. by split.
  - unfold Update. destruct (reg !! task_id) as [r|] eqn:Hr; [|done].
    destruct (transition mode parse now r t) as [e|r'] eqn:Ht; [done|].
    simpl. apply map_Forall_insert_2; [|done].
    eapply transition_consistent; [|exact Ht].
    by apply (map_Forall_lookup_1 _ _ _ _ Hreg Hr).
Qed.

Lemma observed_consistent mode ops : ∀ reg,
  map_Forall (λ _, consistent) reg →
  Forall consistent (observed mode parse reg ops).
Proof.
  induction ops as [|op ops IH]; intros reg Hreg; simpl; [constructor|].
  pose proof (exec_consistent mode reg op Hreg) as Hreg'.
  destruct (exec mode parse reg op) as [reg' seen] eqn:Hexec. simpl in Hreg'.
  destruct seen as [r|]; [|by apply IH].
  constructor; [|by apply IH].
  destruct op as [i now|task_id now t|task_id]; simpl in Hexec; try done.
  injection Hexec as <- Hr. by apply (map_Forall_lookup_1 _ _ _ _ Hreg Hr).
Qed.

(** C2.  Starting from the empty registry, whatever uploads are accepted,
    whatever triggers fire on whatever tasks, and wherever the reads fall
    between those mutations, a record returned by a read that is completed
    has its transcription and its summary, and one that is transcribed has
    its transcription and no summary.  A mutation is applied to the registry
    in one step, so a read sees the record before it or after it. *)
Theorem observed_record_has_its_results
    (mode : Mode) (ops : list Op) (r : TaskRecord) :
  In r (observed mode parse ∅ ops) →
  (status r = completed →
     is_Some (transcription_of r) ∧ is_Some (summary_of r))
  ∧ (status r = transcribed →
       is_Some (transcription_of r) ∧ summary_of r = None).
Proof.
  intros Hin.
  assert (consistent r) as Hc.
  { pose proof (observed_consistent mode ops ∅ (map_Forall_empty _)) as Hall.
    rewrite Forall_forall in Hall. apply Hall. by apply list_elem_of_In. }
  unfold consistent in Hc. unfold transcription_of, summary_of.
  split; intros Hs; rewrite Hs in Hc; destruct Hc as [Ht Hsum].
  - split; by apply fmap_is_Some.
  - split; [by apply fmap_is_Some|by rewrite Hsum].
Qed.

Lemma summarize_trigger_rejected mode now r :
  status r ≠ transcribed →
  transition mode parse now r UserTriggersSummarize = inl InvalidStateTransition.
Proof. unfold transition. by destruct (status r). Qed.

Lemma summarize_rejected mode now g reg task_id r :
  reg !! task_id = Some r → status r ≠ transcribed →
  summarize mode parse now g reg task_id = (reg, inl InvalidStateTransition).
Proof.
  intros Hr Hs. unfold summarize, Update.
  by rewrite Hr, (summarize_trigger_rejected _ _ _ Hs).
Qed.

Lemma summarize_completes mode now response p reg task_id r :
  reg !! task_id = Some r → status r = transcribed →
  parse response = Some p →
  summarize mode parse now (Responded response) reg task_id
  = (<[task_id := summarized now p r]> reg, inr (summarized now p r)).
Proof.
  intros Hr Hs Hp. unfold summarize, Update, transition.
  rewrite Hr, Hs. rewrite lookup_insert_eq. simpl. rewrite Hp.
  rewrite insert_insert_eq. simpl. done.
Qed.

(** C3.  A summarize request on a task whose state is not transcribed is
    answered with the invalid-state error and the registry, hence the
    record, is exactly as before.  On a transcribed task whose provider
    response the parser accepts the request succeeds and leaves the task
    completed; any further summarize request on it is answered with the
    invalid-state error and changes nothing. *)
Theorem summarize_needs_transcribed
    (mode : Mode) (now : Z) (g : GatewayResult)
    (reg : gmap string TaskRecord) (task_id : string) (r : TaskRecord) :
  reg !! task_id = Some r →
  (status r ≠ transcribed →
     summarize mode parse now g reg task_id = (reg, inl InvalidStateTransition)
     ∧ Get (fst (summarize mode parse now g reg task_id)) task_id = inr r)
  ∧ (status r = transcribed →
       ∀ response p, parse response = Some p →
         ∃ reg' r',
           summarize mode parse now (Responded response) reg task_id
             = (reg', inr r')
           ∧ reg' !! task_id = Some r'
           ∧ status r' = completed
           ∧ ∀ now' g',
               summarize mode parse now' g' reg' task_id
               = (reg', inl InvalidStateTransition)).
Proof.
  intros Hr. split.
  - intros Hs. rewrite (summarize_rejected _ _ _ _ _ _ Hr Hs).
    split; [done|]. unfold Get. simpl. by rewrite Hr.
  - intros Hs response p Hp.
    exists (<[task_id := summarized now p r]> reg), (summarized now p r).
    split; [by apply summarize_completes|].
    split; [by apply lookup_insert_eq|]. split; [done|].
    intros now' g'. apply (summarize_rejected _ _ _ _ _ (summarized now p r));
      [by apply lookup_insert_eq|done].
Qed.

End RegistryFacts.

Section SummaryResponse.

Import Pipeline Fixtures.

Lemma summarize_needs_transcribed_witness :
  summarize TwoPhase fixture_parse 1 (Responded "{}")
    {[ id fixture_pending := fixture_pending ]} (id fixture_pending)
  = ({[ id fixture_pending := fixture_pending ]}, inl InvalidStateTransition).
Proof.
  apply (summarize_needs_transcribed fixture_parse TwoPhase 1 (Responded "{}")
           {[ id fixture_pending := fixture_pending ]}
           (id fixture_pending) fixture_pending).
  - apply lookup_singleton_eq.
  - discriminate.
Defined.

Lemma observed_record_has_its_results_witness :
  ∃ r, In r (observed TwoPhase fixture_parse ∅ fixture_ops)
       ∧ status r = transcribed
       ∧ is_Some (transcription_of r) ∧ summary_of r = None.
Proof.
  eexists. split; [left; reflexivity|]. split; [reflexivity|].
  apply (observed_record_has_its_results fixture_parse TwoPhase fixture_ops);
    [left; reflexivity|reflexivity].
Defined.

End SummaryResponse.

Section RelocatorFacts.

Import Relocator.

Lemma stamp_example :
  persistent_name
    {| year := 2025; month := 9; day := 3; hour := 10; minute := 44; second := 25 |}
    "983f4934-c60e-49b3-91bd-8337aa612758" "test_audio.mp3"
  = "20250903_104425_983f4934-c60e-49b3-91bd-8337aa612758_test_audio.mp3".
Proof. reflexivity. Qed.

Lemma append_inj_length (a b x y : string) :
  String.length a = String.length b → a +:+ x = b +:+ y → a = b ∧ x = y.
Proof.
  revert b. induction a as [|c a IH]; intros [|d b]; try discriminate.
  - done.
  - cbn [String.length]. intros [= Hlen]. rewrite !append_cons.
    intros [= -> Heq]. destruct (IH b Hlen Heq) as [-> ->]. done.
Qed.









End RelocatorFacts.

(** * Further properties of the front end *)

Section TextFacts.

Lemma append_length (a b : string) :
  String.length (a +:+ b) = (String.length a + String.length b)%nat.
Proof.
  induction a as [|x a IH]; [done|].
  rewrite append_cons. cbn [String.length]. by rewrite IH.
Qed.

Lemma append_inj_r (a b s : string) : a +:+ s = b +:+ s → a = b.
Proof.
  intros Heq. apply (append_inj_length a b s s); [|done].
  apply (f_equal String.length) in Heq. rewrite !append_length in Heq. lia.
Qed.

Lemma last_char_app (a s : string) :
  s ≠ EmptyString → JsText.last_char (a +:+ s) = JsText.last_char s.
Proof.
  intros Hs. induction a as [|c a IH]; [done|].
  rewrite append_cons. cbn [JsText.last_char]. rewrite IH.
  destruct a as [|d a]; [|done]. rewrite append_nil_l. by destruct s.
Qed.

End TextFacts.

Section ClientCalls.

Import Api.

Lemma task_url_inj (suffix a b : string) :
  "/api/v1/tasks/" +:+ a +:+ suffix = "/api/v1/tasks/" +:+ b +:+ suffix → a = b.
Proof.
  intros Heq%(String.app_inj "/api/v1/tasks/"). by apply append_inj_r in Heq.
Qed.

Lemma task_url_suffix (s1 s2 a b : string) :
  s1 ≠ EmptyString → s2 ≠ EmptyString →
  JsText.last_char s1 ≠ JsText.last_char s2 →
  "/api/v1/tasks/" +:+ a +:+ s1 ≠ "/api/v1/tasks/" +:+ b +:+ s2.
Proof.
  intros H1 H2 Hlast Heq%(String.app_inj "/api/v1/tasks/").
  apply (f_equal JsText.last_char) in Heq.
  by rewrite !last_char_app in Heq.
Qed.

(** X1.  The calls of the REST client keep tasks, files and endpoints apart:
    each call determines the task id or the file it was built from, and calls
    built by two different functions of the client -- any two of the seven --
    are never the same call, whatever the task ids and files. *)
Theorem client_calls_are_told_apart (a b : string) (f g : Uploader.File) :
  ((getTaskStatus a = getTaskStatus b → a = b)
   ∧ (getTranscription a = getTranscription b → a = b)
   ∧ (getMeetingSummary a = getMeetingSummary b → a = b)
   ∧ (createSummaryFromTranscription a = createSummaryFromTranscription b → a = b)
   ∧ (transcribeAudio f = transcribeAudio g → f = g)
   ∧ (processAudioComplete f = processAudioComplete g → f = g)
   ∧ (uploadAudio f = uploadAudio g → f = g))
  ∧ (getTaskStatus a ≠ getTranscription b
     ∧ getTaskStatus a ≠ getMeetingSummary b
     ∧ getTranscription a ≠ getMeetingSummary b
     ∧ createSummaryFromTranscription a ≠ getTaskStatus b
     ∧ createSummaryFromTranscription a ≠ getTranscription b
     ∧ createSummaryFromTranscription a ≠ getMeetingSummary b)
  ∧ (transcribeAudio f ≠ processAudioComplete g
     ∧ transcribeAudio f ≠ uploadAudio g
     ∧ processAudioComplete f ≠ uploadAudio g)
  ∧ (transcribeAudio f ≠ getTaskStatus a
     ∧ transcribeAudio f ≠ getTranscription a
     ∧ transcribeAudio f ≠ getMeetingSummary a
     ∧ transcribeAudio f ≠ createSummaryFromTranscription a
     ∧ processAudioComplete f ≠ getTaskStatus a
     ∧ processAudioComplete f ≠ getTranscription a
     ∧ processAudioComplete f ≠ getMeetingSummary a
     ∧ processAudioComplete f ≠ createSummaryFromTranscription a
     ∧ uploadAudio f ≠ getTaskStatus a
     ∧ uploadAudio f ≠ getTranscription a
     ∧ uploadAudio f ≠ getMeetingSummary a
     ∧ uploadAudio f ≠ createSummaryFromTranscription a).
Proof.
  split; [|split; [|split]].
  - repeat split.
    + intros H%(f_equal url). by apply task_url_inj in H.
    + intros H%(f_equal url). by apply task_url_inj in H.
    + intros H%(f_equal url). by apply task_url_inj in H.
    + intros H%(f_equal url).
      by apply (String.app_inj "/api/transcription/summarize/") in H.
    + by intros [= ->].
    + by intros [= ->].
    + by intros [= ->].
  - repeat split; try discriminate;
      intros H%(f_equal url); by apply task_url_suffix in H.
  - repeat split; discriminate.
  - repeat split; discriminate.
Qed.

End ClientCalls.

Section FormFlow.

Import Uploader UploaderFlow.

Lemma form_ok_step st ev : form_ok st → form_ok (UploaderFlow.step st ev).
Proof.
  intros Hst. destruct ev as [now f|]; simpl; [|done].
  unfold beforeUpload.
  destruct (Z.gtb_spec (size f) maxSize) as [Hgt|Hle]; simpl; [done|].
  destruct (formatOk f) eqn:Hok; simpl; [|done].
  unfold form_ok. simpl. split; [done|]. split; [done|]. eauto 10.
Qed.

Lemma form_ok_run evs : ∀ st, form_ok st → form_ok (UploaderFlow.run st evs).
Proof.
  induction evs as [|ev evs IH]; intros st Hst; simpl; [done|].
  by apply IH, form_ok_step.
Qed.

(** X2.  Whatever files are dropped on the form and whenever the selection is
    removed, the file the process button would hand to the page, if there is
    one, is within the size limit and passed the format check, and the list
    shown holds exactly one entry describing that file; with no selection the
    list is empty. *)
Theorem form_selection_is_validated (evs : list UploaderFlow.Event) :
  let st := UploaderFlow.run initial evs in
  match handleProcess st with
  | Some f =>
      size f ≤ maxSize ∧ formatOk f = true
      ∧ ∃ u, fileList st = [u] ∧ originFileObj u = f
             ∧ uf_name u = name f ∧ uf_size u = size f ∧ uf_type u = type f
             ∧ uf_status u = "done"
  | None => fileList st = []
  end.
Proof. by apply (form_ok_run evs initial). Qed.

(** X3.  The file dialog filter and the validator agree: a name that ends in one
    of the suffixes of the [accept] attribute passes the format check. *)
Theorem accepted_suffix_passes_format_check
    (stem suffix : string) (bytes : Z) (mime : string) :
  In suffix UploaderFlow.acceptSuffixes →
  formatOk {| name := stem +:+ suffix; size := bytes; type := mime |} = true
  ∧ UploaderFlow.accept = ".mp3,.wav,.m4a,.mp4,.webm,.flac".
Proof.
  intros Hin. split; [|reflexivity].
  unfold UploaderFlow.acceptSuffixes in Hin. apply in_map_iff in Hin.
  destruct Hin as (fmt & <- & Hfmt).
  assert (Js.contains_char "." fmt = false ∧ Js.toLowerCase fmt = fmt) as [Hdot Hlow].
  { simpl in Hfmt.
    destruct Hfmt as [<-|[<-|[<-|[<-|[<-|[<-|[]]]]]]]; by split. }
  apply (formatOk_segment _ fmt).
  - simpl. by apply pop_split_dotted.
  - by rewrite Hlow.
Qed.

Lemma accepted_suffix_passes_format_check_witness :
  formatOk {| name := "standup" +:+ ".webm"; size := 1; type := "" |} = true.
Proof.
  apply (accepted_suffix_passes_format_check "standup" ".webm" 1 "").
  simpl. tauto.
Defined.

End FormFlow.

Section WholePage.

Import Api.

Lemma page_event_calls_carry_no_file (st : Home.State) (ev : Home.Event) (r : Request) :
  (∀ file, ev ≠ Home.FileSelected file) →
  In r (snd (Home.step st ev)) → body r = None.
Proof.
  intros Hev Hr. apply step_calls in Hr.
  destruct Hr as [(file & -> & _)|[(taskId & _ & _ & ->)|[(taskId & ->)|(taskId & ->)]]];
    [by destruct (Hev file)|done..].
Qed.

Lemma onPage_form st ev : App.form (fst (App.onPage st ev)) = App.form st.
Proof. unfold App.onPage. by destruct (Home.step _ _). Qed.

Lemma onPage_calls st ev :
  snd (App.onPage st ev) = snd (Home.step (App.page st) ev).
Proof. unfold App.onPage. by destruct (Home.step _ _). Qed.

Lemma app_step_form_ok st ev :
  UploaderFlow.form_ok (App.form st) →
  UploaderFlow.form_ok (App.form (fst (App.step st ev))).
Proof.
  intros Hform.
  destruct ev; cbn [App.step]; rewrite ?onPage_form; try done;
    try (by apply form_ok_step).
  destruct (Uploader.handleProcess (App.form st)); [|done].
  by rewrite onPage_form.
Qed.

Lemma app_step_calls st ev r :
  UploaderFlow.form_ok (App.form st) →
  In r (snd (App.step st ev)) →
  match body r with
  | Some f =>
      r = transcribeAudio f ∧ ev = App.ProcessClicked
      ∧ Uploader.size f ≤ Uploader.maxSize ∧ Uploader.formatOk f = true
  | None => True
  end.
Proof.
  intros Hform.
  destruct ev; cbn [App.step]; try done;
    try (rewrite onPage_calls; intros Hr;
         assert (body r = None) as ->;
         [eapply page_event_calls_carry_no_file; [|exact Hr];
          intros ?; discriminate|done]).
  unfold UploaderFlow.form_ok, Uploader.handleProcess in *.
  destruct (Uploader.selectedFile (App.form st)) as [f|]; [|done].
  rewrite onPage_calls. cbn [Home.step Home.handleFileSelect snd].
  intros [<-|[]]. cbn [body transcribeAudio].
  by destruct Hform as (? & ? & _).
Qed.

(** X4.  Whatever is dropped, removed, clicked or answered, from the freshly
    mounted page on, a call that carries a file is the transcription call, is
    caused by the process button, and carries a file within the size limit
    that passed the format check: no oversized or unsupported file is ever
    sent. *)
Theorem only_validated_files_are_sent
    (evs : list App.Event) (r : Request) (f : Uploader.File) :
  In r (snd (App.run App.initial evs)) →
  body r = Some f →
  r = transcribeAudio f
  ∧ In App.ProcessClicked evs
  ∧ Uploader.size f ≤ Uploader.maxSize
  ∧ Uploader.formatOk f = true.
Proof.
  assert (∀ evs st, UploaderFlow.form_ok (App.form st) →
            In r (snd (App.run st evs)) → body r = Some f →
            r = transcribeAudio f ∧ In App.ProcessClicked evs
            ∧ Uploader.size f ≤ Uploader.maxSize
            ∧ Uploader.formatOk f = true) as Hrun.
  { clear evs. induction evs as [|ev evs IH]; intros st Hform; simpl; [done|].
    pose proof (app_step_form_ok st ev Hform) as Hform'.
    pose proof (app_step_calls st ev r Hform) as Hcalls.
    destruct (App.step st ev) as [st1 calls1]. simpl in Hform', Hcalls.
    specialize (IH st1 Hform').
    destruct (App.run st1 evs) as [st2 calls2]. simpl in IH |- *.
    rewrite in_app_iff. intros [Hr|Hr] Hbody.
    - specialize (Hcalls Hr). rewrite Hbody in Hcalls.
      destruct Hcalls as (-> & -> & Hsize & Hfmt). auto.
    - destruct (IH Hr Hbody) as (? & ? & ? & ?). auto. }
  apply Hrun. done.
Qed.

Lemma only_validated_files_are_sent_witness :
  Uploader.formatOk Fixtures.meeting_mp3 = true.
Proof.
  apply (only_validated_files_are_sent
           [App.Dropped 0 Fixtures.meeting_mp3; App.ProcessClicked]
           (transcribeAudio Fixtures.meeting_mp3) Fixtures.meeting_mp3).
  - vm_compute. left. reflexivity.
  - reflexivity.
Defined.

End WholePage.

Section PageRuns.

Import Api Home.

Lemma step_target st ev id :
  In (createSummaryFromTranscription id) (snd (step st ev))
  ∨ In (getTaskStatus id) (snd (step st ev)) →
  currentTaskId st = Some id ∧ id ≠ "".
Proof.
  destruct ev as [file|res| |res| | | |taskId res|res]; cbn [step snd];
    try (intros [[]|[]]; fail).
  - unfold handleFileSelect. cbn [snd].
    intros [[H|[]]|[H|[]]]; discriminate H.
  - unfold handleCreateSummary.
    destruct (currentTaskId st) as [t|]; [|intros [[]|[]]].
    destruct (String.eqb_spec t "") as [->|Hne]; [intros [[]|[]]|].
    cbn [snd]. intros [[H|[]]|[H|[]]]; [|discriminate H].
    apply (f_equal url) in H.
    apply (String.app_inj "/api/transcription/summarize/") in H. by subst.
  - unfold pollTick, polling.
    destruct (currentTaskId st) as [t|]; [|intros [[]|[]]].
    destruct (String.eqb_spec t "") as [->|Hne]; [intros [[]|[]]|].
    destruct (isProcessing st); cbn [negb andb snd]; [|intros [[]|[]]].
    intros [[H|[]]|[H|[]]]; [discriminate H|].
    apply (f_equal url) in H. apply task_url_inj in H. by subst.
  - unfold onStatus. destruct res as [s|e]; [|intros [[]|[]]].
    destruct (String.eqb (status s) "completed"); cbn [snd].
    + intros [[H|[]]|[H|[]]]; [discriminate H|].
      apply (f_equal url) in H. by apply task_url_suffix in H.
    + destruct (String.eqb (status s) "failed"); intros [[]|[]].
Qed.

Lemma step_task_id st ev id :
  currentTaskId (fst (step st ev)) = Some id →
  currentTaskId st = Some id
  ∨ ∃ t, ev = TranscribeSettled (inl t) ∧ tr_task_id t = id.
Proof.
  destruct ev as [file|res| |res| | | |taskId res|res]; cbn [step fst].
  - cbn. by left.
  - destruct res as [t|e]; cbn; [|by left].
    intros [= <-]. right. eauto.
  - unfold handleCreateSummary. destruct (currentTaskId st) as [t|] eqn:Ht;
      [|cbn; rewrite Ht; by left].
    destruct (String.eqb t ""); cbn; rewrite ?Ht; by left.
  - destruct res as [m|e]; cbn; by left.
  - cbn. discriminate.
  - cbn. by left.
  - unfold pollTick. destruct (polling st); cbn; by left.
  - unfold onStatus. destruct res as [s|e]; [|cbn; by left].
    destruct (String.eqb (status s) "completed"); [cbn; by left|].
    destruct (String.eqb (status s) "failed"); cbn; by left.
  - destruct res as [m|e]; cbn; by left.
Qed.

Lemma calls_target evs : ∀ st id,
  In (createSummaryFromTranscription id) (calls st evs)
  ∨ In (getTaskStatus id) (calls st evs) →
  currentTaskId st = Some id
  ∨ ∃ t, In (TranscribeSettled (inl t)) evs ∧ tr_task_id t = id.
Proof.
  induction evs as [|ev evs IH]; intros st id; cbn [calls].
  - intros [[]|[]].
  - pose proof (step_target st ev id) as Hnow.
    pose proof (step_task_id st ev id) as Hid.
    destruct (step st ev) as [st1 rs]. cbn [fst snd] in Hnow, Hid.
    rewrite !in_app_iff. intros Hin.
    assert ((In (createSummaryFromTranscription id) rs ∨ In (getTaskStatus id) rs)
            ∨ (In (createSummaryFromTranscription id) (calls st1 evs)
               ∨ In (getTaskStatus id) (calls st1 evs))) as [Hrs|Hrest] by tauto.
    + left. by apply Hnow.
    + destruct (IH st1 id Hrest) as [Hst1|(t & Ht & Heq)].
      * destruct (Hid Hst1) as [?|(t & -> & Heq)]; [by left|].
        right. exists t. split; [by left|done].
      * right. exists t. split; [by right|done].
Qed.

(** X5.  From the freshly mounted page on, a summarize request or a status poll
    always names a task id that a transcription response of the run returned:
    the page never asks about a task it was not told of. *)
Theorem page_asks_only_about_transcribed_tasks
    (evs : list Event) (id : string) :
  In (createSummaryFromTranscription id) (calls initial evs)
  ∨ In (getTaskStatus id) (calls initial evs) →
  ∃ t, In (TranscribeSettled (inl t)) evs ∧ tr_task_id t = id.
Proof.
  intros Hin. by destruct (calls_target evs initial id Hin) as [Hnone|Hsome].
Qed.

Lemma page_asks_only_about_transcribed_tasks_witness :
  ∃ t, In (TranscribeSettled (inl t))
         [FileSelected Fixtures.meeting_mp3;
          TranscribeSettled (inl Samples.first_transcription);
          CreateSummaryClicked]
       ∧ tr_task_id t = "983f4934-c60e-49b3-91bd-8337aa612758".
Proof.
  apply (page_asks_only_about_transcribed_tasks
           [FileSelected Fixtures.meeting_mp3;
            TranscribeSettled (inl Samples.first_transcription);
            CreateSummaryClicked]).
  left. vm_compute. right. left. reflexivity.
Defined.

Lemma errorMessage_truthy (e : AxiosError) (fallback : string) :
  fallback ≠ "" → truthy (errorMessage e fallback) = true.
Proof.
  intros Hfb.
  assert (truthy (JString (Js.or_else (error_message e) fallback)) = true)
    as Htext.
  { unfold Js.or_else. cbn [truthy]. apply negb_true_iff, String.eqb_neq.
    destruct (error_message e) as [m|]; [|done].
    by destruct (String.eqb_spec m ""). }
  unfold errorMessage.
  destruct (detail e) as [d|]; [|done]. by destruct (truthy d) eqn:Hd.
Qed.

(** X6.  A rejected transcription or summarize call stops the wait and always
    hands the alert a truthy description: the server's [detail] when it is
    truthy, else the error's own message when that is non-empty, else the
    fixed text of the handler.  The description is a non-empty text whenever
    the detail is absent, falsy or a string.  A truthy detail that is no
    string -- a list or an object, as the detail of a validation error is --
    is handed to the alert as it is: the page does not turn it into text. *)
Theorem rejected_call_hands_the_alert_a_description (e : AxiosError) (st : State) :
  let after_transcribe := handleFileSelect_settled (inr e) st in
  let after_summarize := handleCreateSummary_settled (inr e) st in
  let text fallback :=
    JString match error_message e with
            | Some m => if String.eqb m "" then fallback else m
            | None => fallback
            end in
  HomeView.errorAlert (HomeView.view after_transcribe)
    = Some (errorMessage e processFallback)
  ∧ HomeView.errorAlert (HomeView.view after_summarize)
    = Some (errorMessage e summaryFallback)
  ∧ HomeView.uploaderIsProcessing (HomeView.view after_transcribe) = false
  ∧ HomeView.createSummaryLoading (HomeView.view after_summarize) = false
  ∧ (∀ fallback, fallback ≠ "" →
       truthy (errorMessage e fallback) = true
       ∧ errorMessage e fallback
         = match detail e with
           | Some d => if truthy d then d else text fallback
           | None => text fallback
           end)
  ∧ (∀ fallback, fallback ≠ "" →
       (∀ d, detail e = Some d → truthy d = true → ∃ s, d = JString s) →
       ∃ s, errorMessage e fallback = JString s ∧ s ≠ "")
  ∧ (∀ fallback d, detail e = Some d → truthy d = true →
       (∀ s, d ≠ JString s) →
       errorMessage e fallback = d ∧ ∀ s, errorMessage e fallback ≠ JString s).
Proof.
  intros after_transcribe after_summarize text.
  split.
  { change (errorBanner (handleFileSelect_settled (inr e) st)
            = Some (errorMessage e processFallback)).
    unfold errorBanner.
    change (error (handleFileSelect_settled (inr e) st))
      with (Some (errorMessage e processFallback)).
    cbv beta iota. by rewrite (errorMessage_truthy e processFallback). }
  split.
  { change (errorBanner (handleCreateSummary_settled (inr e) st)
            = Some (errorMessage e summaryFallback)).
    unfold errorBanner.
    change (error (handleCreateSummary_settled (inr e) st))
      with (Some (errorMessage e summaryFallback)).
    cbv beta iota. by rewrite (errorMessage_truthy e summaryFallback). }
  split; [done|]. split; [done|]. split; [|split].
  - intros fallback Hfb. split; [by apply errorMessage_truthy|].
    unfold errorMessage, text, Js.or_else. done.
  - intros fallback Hfb Hstring.
    pose proof (errorMessage_truthy e fallback Hfb) as Htruthy.
    unfold errorMessage in *.
    destruct (detail e) as [d|] eqn:Hdetail.
    + destruct (truthy d) eqn:Hd.
      * destruct (Hstring d eq_refl Hd) as [s ->]. exists s.
        split; [done|]. intros ->. done.
      * eexists. split; [done|]. intros Hempty. cbn [truthy] in Htruthy.
        by rewrite Hempty in Htruthy.
    + eexists. split; [done|]. intros Hempty. cbn [truthy] in Htruthy.
      by rewrite Hempty in Htruthy.
  - intros fallback d Hdetail Hd Hns. unfold errorMessage.
    rewrite Hdetail, Hd. done.
Qed.

Lemma rejected_call_hands_the_alert_a_description_witness :
  (∃ s, errorMessage Samples.not_transcribed_yet summaryFallback = JString s
        ∧ s ≠ "")
  ∧ ∀ s, errorMessage Samples.unprocessable processFallback ≠ JString s.
Proof.
  split.
  - destruct (rejected_call_hands_the_alert_a_description Samples.not_transcribed_yet initial)
      as (_ & _ & _ & _ & _ & Htext & _).
    apply Htext; [discriminate|].
    intros d [= <-] _. eauto.
  - destruct (rejected_call_hands_the_alert_a_description Samples.unprocessable initial)
      as (_ & _ & _ & _ & _ & _ & Hdata).
    eapply Hdata; [reflexivity|reflexivity|discriminate].
Defined.

(** X7.  A second file selected without a reset is processed while the page
    polls the task of the first one: the poll names the first task, and if
    that task is reported completed the page fetches and shows the first
    task's summary and stops waiting, although the second transcription has
    not settled.  Right after the first selection, by contrast, a tick of the
    interval asks nothing. *)
Theorem second_file_polls_the_first_task
    (f1 f2 : Uploader.File) (t1 : TranscriptionResponse)
    (s : ProcessingStatusResponse) (m : MeetingSummaryResponse) :
  tr_task_id t1 ≠ "" →
  status s = "completed" →
  let evs :=
    [FileSelected f1; TranscribeSettled (inl t1); FileSelected f2; PollTick;
     StatusSettled (tr_task_id t1) (inl s); SummaryFetched (inl m)] in
  calls initial evs
  = [transcribeAudio f1; transcribeAudio f2;
     getTaskStatus (tr_task_id t1); getMeetingSummary (tr_task_id t1)]
  ∧ HomeView.summaryPanel (HomeView.view (HomeView.reach initial evs)) = Some m
  ∧ HomeView.uploaderIsProcessing (HomeView.view (HomeView.reach initial evs)) = false
  ∧ HomeView.transcriptionPanel (HomeView.view (HomeView.reach initial evs)) = None
  ∧ calls initial [FileSelected f1; PollTick] = [transcribeAudio f1].
Proof.
  intros Hid%String.eqb_neq Hs evs. unfold evs, HomeView.reach.
  simpl. unfold pollTick, polling. simpl. rewrite Hid. simpl.
  rewrite Hs. simpl. done.
Qed.

Lemma second_file_polls_the_first_task_witness :
  calls initial
    [FileSelected Fixtures.meeting_mp3;
     TranscribeSettled (inl Samples.first_transcription);
     FileSelected Samples.second_recording; PollTick;
     StatusSettled (tr_task_id Samples.first_transcription)
       (inl Samples.first_completed);
     SummaryFetched (inl Samples.first_summary)]
  = [transcribeAudio Fixtures.meeting_mp3;
     transcribeAudio Samples.second_recording;
     getTaskStatus "983f4934-c60e-49b3-91bd-8337aa612758";
     getMeetingSummary "983f4934-c60e-49b3-91bd-8337aa612758"].
Proof.
  apply (second_file_polls_the_first_task
           Fixtures.meeting_mp3 Samples.second_recording
           Samples.first_transcription Samples.first_completed
           Samples.first_summary).
  - discriminate.
  - reflexivity.
Defined.

(** X8.  The two-step flow on a fresh page: selecting a file, its transcription
    arriving, the create-summary button, the summary arriving.  Two calls are
    issued, the transcription of the file and the summarize of the task the
    transcription named, and the page ends showing the summary alone, with no
    error and nothing pending. *)
Theorem two_step_flow
    (f : Uploader.File) (t : TranscriptionResponse) (m : MeetingSummaryResponse) :
  tr_task_id t ≠ "" →
  let evs := [FileSelected f; TranscribeSettled (inl t); CreateSummaryClicked;
              SummarizeSettled (inl m)] in
  let shown := HomeView.view (HomeView.reach initial evs) in
  calls initial evs
  = [transcribeAudio f; createSummaryFromTranscription (tr_task_id t)]
  ∧ HomeView.summaryPanel shown = Some m
  ∧ HomeView.transcriptionPanel shown = None
  ∧ HomeView.statusPanel shown = None
  ∧ HomeView.errorAlert shown = None
  ∧ HomeView.uploaderIsProcessing shown = false
  ∧ HomeView.createSummaryLoading shown = false
  ∧ HomeView.processingAnimation shown = false.
Proof.
  intros Hid%String.eqb_neq evs shown. unfold shown, evs, HomeView.reach.
  simpl. unfold handleCreateSummary. simpl. rewrite Hid. simpl.
  repeat split; done.
Qed.

Lemma two_step_flow_witness :
  calls initial
    [FileSelected Fixtures.meeting_mp3;
     TranscribeSettled (inl Samples.first_transcription);
     CreateSummaryClicked; SummarizeSettled (inl Samples.first_summary)]
  = [transcribeAudio Fixtures.meeting_mp3;
     createSummaryFromTranscription "983f4934-c60e-49b3-91bd-8337aa612758"].
Proof.
  apply (two_step_flow Fixtures.meeting_mp3 Samples.first_transcription
           Samples.first_summary).
  discriminate.
Defined.






End PageRuns.

Section Timeline.

Import Api StatusView.

Lemma indexOf_absent (xs : list string) (x : string) :
  ¬ In x xs → Js.indexOf xs x = -1.
Proof.
  induction xs as [|y xs IH]; simpl; [done|]. intros Hnot.
  destruct (String.eqb_spec y x) as [->|_]; [tauto|].
  rewrite IH by tauto. done.
Qed.

Lemma timeline_items (r : ProcessingStatusResponse) :
  getTimelineItems r
  = [timelineItem r 0 "uploading"; timelineItem r 1 "transcribing";
     timelineItem r 2 "summarizing"; timelineItem r 3 "completed"].
Proof. reflexivity. Qed.

(** X9.  A failed task is drawn the same wherever it failed: the first step red
    with the warning icon, the other steps grey with their own icons, and no
    progress bar on any step. *)
Theorem timeline_of_a_failed_task (r : ProcessingStatusResponse) :
  status r = "failed" →
  map color (getTimelineItems r) = ["#ff4d4f"; "#d9d9d9"; "#d9d9d9"; "#d9d9d9"]
  ∧ map dot (getTimelineItems r)
    = [ExclamationCircleOutlined; FileTextOutlined; FileTextOutlined;
       CheckCircleOutlined]
  ∧ map progressBar (getTimelineItems r) = [None; None; None; None].
Proof.
  intros Hs. rewrite timeline_items. unfold timelineItem. rewrite Hs. done.
Qed.

Lemma timeline_of_a_failed_task_witness :
  map color (getTimelineItems Fixtures.failed_with_message)
  = ["#ff4d4f"; "#d9d9d9"; "#d9d9d9"; "#d9d9d9"].
Proof.
  apply (timeline_of_a_failed_task Fixtures.failed_with_message). reflexivity.
Defined.

(** X10.  A status that is neither failed nor a step of the timeline -- pending,
    or any value the panel does not know -- leaves every step grey with its
    own icon and shows no progress bar. *)
Theorem timeline_of_a_status_off_the_steps (r : ProcessingStatusResponse) :
  status r ≠ "failed" →
  ¬ In (status r) statuses →
  map color (getTimelineItems r) = ["#d9d9d9"; "#d9d9d9"; "#d9d9d9"; "#d9d9d9"]
  ∧ map dot (getTimelineItems r) = statusIcons
  ∧ map progressBar (getTimelineItems r) = [None; None; None; None].
Proof.
  intros Hfailed%String.eqb_neq Hoff%indexOf_absent.
  rewrite timeline_items. unfold timelineItem. rewrite Hfailed, Hoff. done.
Qed.

Lemma timeline_of_a_status_off_the_steps_witness :
  map progressBar (getTimelineItems (Fixtures.stalled_at_transcribed 70))
  = [None; None; None; None].
Proof.
  apply (timeline_of_a_status_off_the_steps (Fixtures.stalled_at_transcribed 70)).
  - discriminate.
  - simpl. intros [H|[H|[H|[H|[]]]]]; discriminate H.
Defined.

(** X11.  For a status that is the [i]-th step of the timeline, the steps before
    it are green, the step itself has the colour of the status, the steps
    after it are grey; the spinner replaces the icon of the current step and
    the progress bar, filled to the reported progress, sits under it, except
    on the last step, which keeps its icon and has no bar. *)
Theorem timeline_of_a_step
    (r : ProcessingStatusResponse) (i j : nat) (item : TimelineItem) :
  statuses !! i = Some (status r) →
  getTimelineItems r !! j = Some item →
  color item
  = (if (j <? i)%nat then "#52c41a"
     else if (j =? i)%nat then getStatusColor (status r)
     else "#d9d9d9")
  ∧ Some (dot item)
    = (if ((j =? i)%nat && negb (i =? 3)%nat)%bool then Some LoadingOutlined
       else statusIcons !! j)
  ∧ progressBar item
    = (if ((j =? i)%nat && negb (i =? 3)%nat)%bool
       then Some (progress r) else None)
  ∧ Some (label item) = statusLabels !! j.
Proof.
  rewrite timeline_items. unfold timelineItem, statuses.
  do 4 (try destruct i as [|i]); simpl; try done;
    intros [= <-];
    do 4 (try destruct j as [|j]); simpl; try done;
    intros [= <-]; done.
Qed.

Lemma timeline_of_a_step_witness :
  ∃ item, getTimelineItems (Samples.summarizing_at 80) !! 2%nat = Some item
          ∧ progressBar item = Some 80.
Proof.
  eexists. split; [reflexivity|].
  apply (timeline_of_a_step (Samples.summarizing_at 80) 2 2); reflexivity.
Defined.

(** X12.  Whatever the status, the timeline has its four steps with their fixed
    labels in the fixed order, and at most one of them carries a progress
    bar. *)
Theorem timeline_has_four_steps_and_one_bar (r : ProcessingStatusResponse) :
  map label (getTimelineItems r) = statusLabels
  ∧ (length (omap progressBar (getTimelineItems r)) ≤ 1)%nat.
Proof.
  rewrite timeline_items. unfold timelineItem, statuses. cbn [Js.indexOf].
  repeat match goal with
    | |- context [String.eqb ?a (status r)] => destruct (String.eqb a (status r))
    | |- context [String.eqb (status r) ?b] => destruct (String.eqb (status r) b)
    end; simpl; (split; [done|lia]).
Qed.

End Timeline.

Section FencedBlocks.

Import Notes Fixtures.

Lemma strip_prefix_app lit : ∀ s rest,
  strip_prefix lit s = Some rest → s = lit ++ rest.
Proof.
  induction lit as [|a lit IH]; intros s rest; cbn [strip_prefix].
  - by intros [= ->].
  - destruct s as [|b s]; [done|].
    destruct (N.eqb_spec a b) as [->|]; [|done].
    by intros ->%IH.
Qed.

Lemma strip_prefix_complete lit rest : strip_prefix lit (lit ++ rest) = Some rest.
Proof.
  induction lit as [|a lit IH]; [done|].
  cbn [app strip_prefix]. by rewrite N.eqb_refl.
Qed.

Lemma skip_spaces_spec s :
  ∃ spaces, s = spaces ++ skip_spaces s ∧ all_space spaces = true.
Proof.
  induction s as [|c s (spaces & IH & Hsp)]; cbn [skip_spaces].
  - by exists [].
  - destruct (is_space c) eqn:Hc.
    + exists (c :: spaces). cbn [app all_space forallb].
      rewrite <- IH, Hc. done.
    + by exists [].
Qed.

Lemma skip_spaces_past spaces c rest :
  all_space spaces = true → is_space c = false →
  skip_spaces (spaces ++ c :: rest) = c :: rest.
Proof.
  intros Hsp Hc. induction spaces as [|d spaces IH].
  - cbn [app skip_spaces]. by rewrite Hc.
  - cbn [all_space forallb] in Hsp. apply andb_true_iff in Hsp as [Hd Hsp].
    cbn [app skip_spaces]. rewrite Hd. by apply IH.
Qed.

(** After spaces, the closing fence is recognised. *)
Lemma fence_after_spaces spaces post :
  all_space spaces = true →
  is_Some (strip_prefix fence (skip_spaces (spaces ++ fence ++ post))).
Proof.
  intros Hsp. change (fence ++ post) with (96%N :: codes "``" ++ post).
  rewrite (skip_spaces_past spaces 96%N _ Hsp eq_refl).
  change (96%N :: codes "``" ++ post) with (fence ++ post).
  rewrite strip_prefix_complete. eauto.
Qed.

(** What the lazy group takes: the text up to a closing brace that spaces
    and a fence follow, and no closing brace before it is such. *)
Lemma close_group_sound s : ∀ taken group,
  close_group taken s = Some group →
  ∃ body rest tail,
    s = body ++ [closing_brace] ++ rest
    ∧ group = taken ++ body ++ [closing_brace]
    ∧ strip_prefix fence (skip_spaces rest) = Some tail
    ∧ ∀ body' rest',
        s = body' ++ [closing_brace] ++ rest' →
        is_Some (strip_prefix fence (skip_spaces rest')) →
        (length body ≤ length body')%nat.
Proof.
  induction s as [|c s IH]; intros taken group; cbn [close_group]; [done|].
  assert (((c =? closing_brace)%N = false
           ∨ strip_prefix fence (skip_spaces s) = None) →
          close_group (taken ++ [c]) s = Some group →
          ∃ body rest tail,
            c :: s = body ++ [closing_brace] ++ rest
            ∧ group = taken ++ body ++ [closing_brace]
            ∧ strip_prefix fence (skip_spaces rest) = Some tail
            ∧ ∀ body' rest',
                c :: s = body' ++ [closing_brace] ++ rest' →
                is_Some (strip_prefix fence (skip_spaces rest')) →
                (length body ≤ length body')%nat) as Hnext.
  { intros Hhere (body & rest & tail & -> & -> & Htail & Hshort)%IH.
    exists (c :: body), rest, tail. split; [done|].
    split; [by rewrite <- app_assoc|]. split; [done|].
    intros [|c' body'] rest'; cbn [app length].
    - intros [= -> <-] [tail' Hsome].
      destruct Hhere as [Hc|Hnone]; [by rewrite N.eqb_refl in Hc|].
      cbn [app] in Hnone, Hsome. congruence.
    - intros [= <- Heq] Hsome. apply le_n_S. by apply (Hshort body' rest'). }
  destruct (N.eqb_spec c closing_brace) as [->|Hc]; [|apply Hnext; by left].
  destruct (strip_prefix fence (skip_spaces s)) as [tail|] eqn:Htail;
    [|apply Hnext; by right].
  intros [= <-]. exists [], s, tail. cbn [app length].
  split; [done|]. split; [done|]. split; [done|]. intros; lia.
Qed.

Lemma close_group_complete body : ∀ taken rest,
  is_Some (strip_prefix fence (skip_spaces rest)) →
  is_Some (close_group taken (body ++ [closing_brace] ++ rest)).
Proof.
  induction body as [|c body IH]; intros taken rest Hrest.
  - cbn [app close_group]. rewrite N.eqb_refl. destruct Hrest as [tail ->]. eauto.
  - rewrite <- app_comm_cons. cbn [close_group].
    destruct (c =? closing_brace)%N; [|by apply IH].
    destruct (strip_prefix fence (skip_spaces (body ++ [closing_brace] ++ rest)));
      [eauto|by apply IH].
Qed.

Lemma fenced_nil spaces body spaces' post :
  fenced [] spaces body spaces' post
  = json_fence ++ spaces ++ opening_brace :: body ++ closing_brace
    :: spaces' ++ fence ++ post.
Proof. reflexivity. Qed.

Lemma match_here_sound s group :
  match_here s = Some group →
  ∃ spaces body spaces' post,
    s = fenced [] spaces body spaces' post
    ∧ group = [opening_brace] ++ body ++ [closing_brace]
    ∧ all_space spaces = true ∧ all_space spaces' = true
    ∧ ∀ spaces2 body2 spaces2' post2,
        s = fenced [] spaces2 body2 spaces2' post2 →
        all_space spaces2 = true → all_space spaces2' = true →
        (length body ≤ length body2)%nat.
Proof.
  unfold match_here.
  destruct (strip_prefix json_fence s) as [s1|] eqn:Hfence; [|done].
  apply strip_prefix_app in Hfence as ->.
  destruct (skip_spaces_spec s1) as (spaces & Hs1 & Hsp).
  destruct (skip_spaces s1) as [|c s2] eqn:Hskip; [done|].
  destruct (N.eqb_spec c opening_brace) as [->|]; [|done].
  intros (body & rest & tail & -> & -> & Htail & Hshort)%close_group_sound.
  destruct (skip_spaces_spec rest) as (spaces' & Hrest & Hsp').
  apply strip_prefix_app in Htail. rewrite Htail in Hrest.
  exists spaces, body, spaces', tail.
  split; [rewrite fenced_nil, Hs1, Hrest at 1; done|].
  split; [done|]. split; [done|]. split; [done|].
  intros spaces2 body2 spaces2' post2 Heq Hsp2 Hsp2'.
  rewrite fenced_nil in Heq.
  apply app_inv_head in Heq. rewrite Heq in Hskip.
  rewrite (skip_spaces_past spaces2 opening_brace _ Hsp2 eq_refl) in Hskip.
  injection Hskip as Hskip.
  apply (Hshort body2 (spaces2' ++ fence ++ post2)); [exact (eq_sym Hskip)|].
  by apply fence_after_spaces.
Qed.

Lemma match_here_complete spaces body spaces' post :
  all_space spaces = true → all_space spaces' = true →
  is_Some (match_here (fenced [] spaces body spaces' post)).
Proof.
  intros Hsp Hsp'. rewrite fenced_nil. unfold match_here.
  rewrite strip_prefix_complete.
  rewrite (skip_spaces_past spaces opening_brace _ Hsp eq_refl).
  rewrite N.eqb_refl. apply close_group_complete.
  by apply fence_after_spaces.
Qed.

Lemma json_match_later pre : ∀ s,
  is_Some (match_here s) → is_Some (json_match (pre ++ s)).
Proof.
  induction pre as [|c pre IH]; intros s Hs.
  - destruct Hs as [group Hs].
    destruct s; cbn [app json_match]; rewrite Hs; eauto.
  - cbn [app json_match].
    destruct (match_here (c :: pre ++ s)); [eauto|by apply IH].
Qed.

(** [re.search] returns the match at the leftmost position that has one. *)
Lemma json_match_leftmost content : ∀ group,
  json_match content = Some group →
  ∃ pre rest,
    content = pre ++ rest
    ∧ match_here rest = Some group
    ∧ ∀ pre' rest', content = pre' ++ rest' → is_Some (match_here rest') →
        (length pre ≤ length pre')%nat.
Proof.
  induction content as [|c content IH]; intros group; cbn [json_match].
  - destruct (match_here []) as [g|] eqn:Hm; [|done]. intros [= <-].
    exists [], []. split; [done|]. split; [done|]. intros; cbn; lia.
  - destruct (match_here (c :: content)) as [g|] eqn:Hm.
    + intros [= <-]. exists [], (c :: content).
      split; [done|]. split; [done|]. intros; cbn; lia.
    + intros (pre & rest & -> & Hrest & Hleft)%IH.
      exists (c :: pre), rest. split; [done|]. split; [done|].
      intros [|c' pre'] rest'; cbn [app length].
      * intros <- [g Hg]. congruence.
      * intros [= <- Heq] Hsome. apply le_n_S. by apply (Hleft pre' rest').
Qed.

Lemma fenced_at_found content offset body :
  fenced_at content offset body → is_Some (json_match content).
Proof.
  intros (pre & sp & sp' & post & -> & _ & Hsp & Hsp').
  apply (json_match_later pre (fenced [] sp body sp' post)).
  by apply match_here_complete.
Qed.



(** X13.  The quoted pattern finds something exactly when the response holds a
    fenced block, white space being the Unicode white space of the pattern,
    and what it returns is the brace-to-brace stretch of such a block of the
    response: nothing is made up, and a response without a [```json] fence
    yields nothing. *)
Theorem json_match_finds_fenced_blocks (content : list N) :
  (is_Some (json_match content)
   ↔ ∃ pre spaces body spaces' post,
       content = fenced pre spaces body spaces' post
       ∧ all_space spaces = true ∧ all_space spaces' = true)
  ∧ (∀ group, json_match content = Some group →
       ∃ pre spaces body spaces' post,
         content = fenced pre spaces body spaces' post
         ∧ group = [opening_brace] ++ body ++ [closing_brace]
         ∧ all_space spaces = true ∧ all_space spaces' = true)
  ∧ ((∀ pre post, content ≠ pre ++ json_fence ++ post) →
       json_match content = None).
Proof.
  assert (∀ group, json_match content = Some group →
            ∃ pre spaces body spaces' post,
              content = fenced pre spaces body spaces' post
              ∧ group = [opening_brace] ++ body ++ [closing_brace]
              ∧ all_space spaces = true ∧ all_space spaces' = true) as Hsound.
  { intros group (pre & rest & -> & Hm & _)%json_match_leftmost.
    apply match_here_sound in Hm
      as (sp & body & sp' & post & -> & -> & Hsp & Hsp' & _).
    by exists pre, sp, body, sp', post. }
  split; [|split; [exact Hsound|]].
  - split.
    + intros [group Hgroup].
      destruct (Hsound group Hgroup) as (pre & sp & body & sp' & post & ? & _ & ?).
      by exists pre, sp, body, sp', post.
    + intros (pre & sp & body & sp' & post & -> & Hsp & Hsp').
      apply (fenced_at_found _ (length pre) body).
      by exists pre, sp, sp', post.
  - intros Hnone. destruct (json_match content) as [group|] eqn:Hm; [|done].
    destruct (Hsound group eq_refl) as (pre & sp & body & sp' & post & -> & _).
    by destruct (Hnone pre (sp ++ [opening_brace] ++ body ++ [closing_brace]
                            ++ sp' ++ fence ++ post)).
Qed.

Lemma json_match_finds_fenced_blocks_witness :
  json_match no_break_space_block = Some (codes "{}").
Proof.
  destruct (json_match_finds_fenced_blocks no_break_space_block)
    as ([_ Hfound] & Hsound & _).
  destruct Hfound as [group Hgroup].
  { exists [], [160%N], [], [], []. repeat split. }
  rewrite Hgroup. f_equal.
  destruct (Hsound group Hgroup) as (pre & sp & body & sp' & post & _).
  vm_compute in Hgroup. by injection Hgroup as <-.
Defined.

End FencedBlocks.

Section NumberedLists.

Import SummaryDisplay.

Lemma split_join (sep : ascii) (xs : list string) :
  xs ≠ [] →
  Forall (λ x, Js.contains_char sep x = false) xs →
  Js.split sep (JsText.join (String sep EmptyString) xs) = xs.
Proof.
  induction xs as [|x xs IH]; [done|]. intros _ Hxs.
  apply Forall_cons in Hxs as [Hx Hxs].
  destruct xs as [|y xs].
  - by apply split_no_sep.
  - change (JsText.join (String sep EmptyString) (x :: y :: xs))
      with (x +:+ String sep EmptyString
            +:+ JsText.join (String sep EmptyString) (y :: xs)).
    rewrite append_cons, append_nil_l, split_app, (split_no_sep _ _ Hx).
    rewrite IH by done. done.
Qed.

Lemma contains_char_app (c : ascii) (a b : string) :
  Js.contains_char c (a +:+ b)
  = (Js.contains_char c a || Js.contains_char c b)%bool.
Proof.
  induction a as [|x a IH]; [done|].
  rewrite append_cons. cbn [Js.contains_char]. by rewrite IH, orb_assoc.
Qed.

Lemma pretty_N_go_has_no (c : ascii) (x : N) : ∀ s,
  (∀ d, Ascii.eqb (pretty_N_char d) c = false) →
  Js.contains_char c s = false →
  Js.contains_char c (pretty_N_go x s) = false.
Proof.
  induction (N.lt_wf_0 x) as [x _ IH]; intros s Hdigit Hs.
  assert (x = 0 ∨ 0 < x)%N as [->|Hpos] by lia.
  - by rewrite pretty_N_go_0.
  - rewrite pretty_N_go_step by done. apply IH; [by apply N.div_lt|done|].
    cbn [Js.contains_char]. by rewrite Hdigit, Hs.
Qed.

Lemma pretty_nat_has_no_line_feed (n : nat) :
  Js.contains_char lineFeed (pretty n) = false.
Proof.
  unfold pretty, pretty_nat, pretty, pretty_N.
  case_decide; [done|]. apply pretty_N_go_has_no; [|done].
  intros d. unfold pretty_N_char. by repeat case_match.
Qed.

Lemma numberedLines_from (items : list string) : ∀ (start : nat),
  Forall (λ item, Js.contains_char lineFeed item = false) items →
  Forall (λ line, Js.contains_char lineFeed line = false)
    (imap (λ index, numberedLine (start + index)) items).
Proof.
  induction items as [|item items IH]; intros start Hitems; [constructor|].
  apply Forall_cons in Hitems as [Hitem Hitems].
  cbn [imap]. constructor.
  - unfold numberedLine. rewrite !contains_char_app.
    by rewrite pretty_nat_has_no_line_feed, Hitem.
  - rewrite (imap_ext _ (λ index, numberedLine (S start + index))).
    + by apply IH.
    + intros i x _. cbn. f_equal. lia.
Qed.

(** X14.  The numbered block of the minutes has one line per item, in the order of
    the items, the [i]-th line being the number [i+1], a dot, a space and the
    item: splitting the block at its line feeds gives back exactly those
    lines, provided there is at least one item and no item contains a line
    feed itself. *)
Theorem numbered_block_has_a_line_per_item (items : list string) :
  items ≠ [] →
  Forall (λ item, Js.contains_char lineFeed item = false) items →
  Js.split lineFeed (numbered items) = numberedLines items
  ∧ length (Js.split lineFeed (numbered items)) = length items
  ∧ ∀ i item, items !! i = Some item →
      Js.split lineFeed (numbered items) !! i
      = Some (pretty (i + 1)%nat +:+ ". " +:+ item).
Proof.
  intros Hne Hitems.
  assert (Js.split lineFeed (numbered items) = numberedLines items) as ->.
  { unfold numbered. apply split_join.
    - unfold numberedLines. by destruct items.
    - apply (numberedLines_from items 0 Hitems). }
  split; [done|]. unfold numberedLines. split.
  - by rewrite length_imap.
  - intros i item Hi. by rewrite list_lookup_imap, Hi.
Qed.

Lemma numbered_block_has_a_line_per_item_witness :
  Js.split lineFeed (numbered ["Release moved to Friday"; "Budget approved"])
  = ["1. Release moved to Friday"; "2. Budget approved"].
Proof.
  apply (numbered_block_has_a_line_per_item
           ["Release moved to Friday"; "Budget approved"]).
  - discriminate.
  - repeat constructor.
Defined.

End NumberedLists.

(** * The ids the registry issues *)

Section IssuedIds.

Import Pipeline Relocator.

Lemma search_is_number (xs : list string) (R : nat → nat → Prop)
    (step : ∀ n, pretty n ∈ xs → R (1 + n)%nat n) :
  ∀ n (acc : Acc R n),
    ∃ m : nat,
      Fix_F (λ _, string)
        (λ n (go : ∀ n', R n' n → string),
           match decide (pretty n ∈ xs) with
           | left Hx => go (S n) (step n Hx)
           | right _ => pretty n
           end) acc = pretty m.
Proof.
  fix FIX 2. intros n [acc]; simpl.
  destruct (decide _); eauto.
Qed.

Lemma fresh_is_number (X : gset string) : ∃ n : nat, fresh X = pretty n.
Proof. unfold fresh, set_fresh. apply search_is_number. Qed.

Lemma pretty_nat_has_no_underscore (n : nat) :
  Js.contains_char "_" (pretty n) = false.
Proof.
  unfold pretty, pretty_nat, pretty, pretty_N.
  case_decide; [done|]. apply pretty_N_go_has_no; [|done].
  intros d. unfold pretty_N_char. by repeat case_match.
Qed.

(** The ids [Create] issues are decimal numbers, so any two of them can be
    told apart inside a file name. *)
Lemma created_ids_are_separable
    (reg reg' : gmap string TaskRecord) (i i' : Intake) (now now' : Z) :
  separable (fst (Create reg i now)) (fst (Create reg' i' now')).
Proof.
  right. unfold Create. cbn [fst].
  destruct (fresh_is_number (dom reg)) as [n ->].
  destruct (fresh_is_number (dom reg')) as [n' ->].
  split; apply pretty_nat_has_no_underscore.
Qed.

End IssuedIds.
